(** * mirage-ecs: the reverse-proxy routing table

    A shallow embedding of [ReverseProxy], [proxyHandlers] and
    [proxyHandler] (the reverse proxy of [package main]) together with the
    part of [Config] they read ([Listen], [PortMap]).

    Conventions of the embedding:
    - Go [string] is [string] (a sequence of bytes, one [ascii] per byte);
    - Go [int] is [Z]; no arithmetic on ports is performed by the code;
    - Go [map[K]V] is [gmap K V]; a missing key is the [nil] value;
    - [for k := range m] visits the keys of [m] in an order the runtime
      picks: every loop over a map takes the visiting order from a
      [range_order], a permutation of the keys;
    - time is an integer count of nanoseconds ([time.Duration]); every
      method that reads the clock takes [now];
    - [log.Printf] appends a line to the log returned by the method;
    - the table lock [mu] serialises the methods: each method is one
      atomic state transformer. *)

From Stdlib Require Import ZArith Lia Ascii String.
From stdpp Require Import gmap strings list fin_maps.

Open Scope string_scope.
Open Scope Z_scope.

(** ** Go library functions used by the table *)

Module GoStrings.

(** [strings.ToLower] on one byte: 'A'..'Z' are mapped to 'a'..'z'.
    Bytes outside ASCII letters are kept (host names are ASCII). *)
Definition toLowerByte (c : ascii) : ascii :=
  if (Ascii.leb "A" c && Ascii.leb c "Z")%bool
  then ascii_of_N (N_of_ascii c + 32)
  else c.

Fixpoint ToLower (s : string) : string :=
  match s with
  | EmptyString => EmptyString
  | String c s' => String (toLowerByte c) (ToLower s')
  end.

(** [strings.Split(s, sep)[0]] for a one-byte separator: the bytes of
    [s] before the first [sep], all of [s] when [sep] does not occur. *)
Fixpoint SplitFirst (s : string) (sep : ascii) : string :=
  match s with
  | EmptyString => EmptyString
  | String c s' => if Ascii.eqb c sep then EmptyString
                   else String c (SplitFirst s' sep)
  end.

(** [bytealg.IndexByteString(s, c) >= 0]. *)
Fixpoint ContainsByte (s : string) (c : ascii) : bool :=
  match s with
  | EmptyString => false
  | String d s' => (Ascii.eqb d c || ContainsByte s' c)%bool
  end.

End GoStrings.

(** [path.Match] of the Go standard library (package [path], file
    match.go), which [Exists] and [findHandler] call.  The functions follow
    the library's loops; a loop that is not structural takes its bound
    (the length of the pattern it consumes) as [fuel] and answers [None]
    only when the bound is exhausted, which [Match_fuel_enough] below rules
    out.  Runes are decoded one byte at a time (ASCII patterns and names). *)
Module GoPath.

Inductive error := ErrBadPattern.

(** [len(s) > 0 && s[0] == c] and [s[1:]]. *)
Definition startsWith (s : string) (c : ascii) : bool :=
  match s with
  | String d _ => Ascii.eqb d c
  | EmptyString => false
  end.

Definition tail (s : string) : string :=
  match s with
  | String _ s' => s'
  | EmptyString => EmptyString
  end.

(** [scanChunk] gets the next segment of pattern, which is a non-star
    string possibly preceded by a star. *)
Fixpoint skipStars (pattern : string) : bool * string :=
  match pattern with
  | String c p =>
      if Ascii.eqb c "*" then (true, snd (skipStars p)) else (false, pattern)
  | EmptyString => (false, pattern)
  end.

(** The [Scan:] loop: the length [i] of the chunk.  [esc] records that
    the previous byte was a backslash with a byte after it. *)
Fixpoint scanLen (inrange esc : bool) (pattern : string) : nat :=
  match pattern with
  | EmptyString => O
  | String c p =>
      if esc then S (scanLen inrange false p)
      else if Ascii.eqb c "\" then
        match p with
        | EmptyString => 1%nat
        | _ => S (scanLen inrange true p)
        end
      else if Ascii.eqb c "[" then S (scanLen true false p)
      else if Ascii.eqb c "]" then S (scanLen false false p)
      else if Ascii.eqb c "*" then
        if inrange then S (scanLen inrange false p) else O
      else S (scanLen inrange false p)
  end.

Definition scanChunk (pattern : string) : bool * string * string :=
  let '(star, pattern) := skipStars pattern in
  let i := scanLen false false pattern in
  (star, substring 0 i pattern, substring i (String.length pattern - i) pattern).

(** [getEsc] gets a possibly-escaped character from chunk, for a
    character class. *)
Definition getEsc (chunk : string) : ascii * string * option error :=
  match chunk with
  | EmptyString => ("000"%char, "", Some ErrBadPattern)
  | String c rest =>
      if (Ascii.eqb c "-" || Ascii.eqb c "]")%bool
      then ("000"%char, "", Some ErrBadPattern)
      else
        let chunk := if Ascii.eqb c "\" then rest else chunk in
        match chunk with
        | EmptyString => ("000"%char, "", Some ErrBadPattern)
        | String r nchunk =>
            (r, nchunk,
             match nchunk with
             | EmptyString => Some ErrBadPattern
             | _ => None
             end)
        end
  end.

(** The [for { ... }] loop of a character class: parses all ranges and
    answers [(match, chunk after the closing bracket)]. *)
Fixpoint classRanges (fuel : nat) (r : ascii) (chunk : string)
    (matched : bool) (nrange : nat) : option (bool * string + error) :=
  match fuel with
  | O => None
  | S fuel =>
      if (startsWith chunk "]" && negb (Nat.eqb nrange 0))%bool then
        Some (inl (matched, tail chunk))
      else
        match getEsc chunk with
        | (_, _, Some err) => Some (inr err)
        | (lo, chunk, None) =>
            if startsWith chunk "-" then
              match getEsc (tail chunk) with
              | (_, _, Some err) => Some (inr err)
              | (hi, chunk, None) =>
                  classRanges fuel r chunk
                    (matched || (Ascii.leb lo r && Ascii.leb r hi))%bool
                    (S nrange)
              end
            else
              classRanges fuel r chunk
                (matched || (Ascii.leb lo r && Ascii.leb r lo))%bool
                (S nrange)
        end
  end.

(** [matchChunk] checks whether chunk matches the beginning of s.  If
    so, it returns the remainder of s (after the match).  Chunk is all
    single-character operators: literals, char classes, and ?.
    The result is [(rest, ok, err)]. *)
Fixpoint matchChunk_loop (fuel : nat) (failed : bool) (chunk s : string)
    : option (string * bool * option error) :=
  match fuel with
  | O => None
  | S fuel =>
      match chunk with
      | EmptyString =>
          Some (if failed then ("", false, None) else (s, true, None))
      | String c chunk1 =>
          let failed :=
            (failed || match s with EmptyString => true | _ => false end)%bool in
          if Ascii.eqb c "[" then
            let '(r, s) :=
              if failed then ("000"%char, s)
              else match s with
                   | String r s' => (r, s')
                   | EmptyString => ("000"%char, s)
                   end in
            let negated := startsWith chunk1 "^" in
            let chunk2 := if negated then tail chunk1 else chunk1 in
            match classRanges (S (String.length chunk2)) r chunk2 false O with
            | None => None
            | Some (inr err) => Some ("", false, Some err)
            | Some (inl (matched, chunk3)) =>
                matchChunk_loop fuel
                  (failed || Bool.eqb matched negated)%bool chunk3 s
            end
          else if Ascii.eqb c "?" then
            match failed, s with
            | false, String c0 s' =>
                matchChunk_loop fuel (Ascii.eqb c0 "/") chunk1 s'
            | _, _ => matchChunk_loop fuel failed chunk1 s
            end
          else
            let lit (c : ascii) (chunk' : string) :=
              match failed, s with
              | false, String c0 s' =>
                  matchChunk_loop fuel (negb (Ascii.eqb c c0)) chunk' s'
              | _, _ => matchChunk_loop fuel failed chunk' s
              end in
            if Ascii.eqb c "\" then
              match chunk1 with
              | EmptyString => Some ("", false, Some ErrBadPattern)
              | String c' chunk2 => lit c' chunk2
              end
            else lit c chunk1
      end
  end.

Definition matchChunk (chunk s : string) : option (string * bool * option error) :=
  matchChunk_loop (S (String.length chunk)) false chunk s.

(** The loop [for i := 0; i < len(name) && name[i] != '/'; i++] of
    [Match]: looks for a match of [chunk] skipping [i+1] bytes of [name].
    [last] is [len(pattern) == 0].  Answers [inl t] at [continue Pattern]
    with the new name, [inr None] when the loop ends, [inr (Some err)] at
    [return false, err]. *)
Fixpoint skipMatch (chunk : string) (last : bool) (name : string)
    : option (string + option error) :=
  match name with
  | EmptyString => Some (inr None)
  | String c name' =>
      if Ascii.eqb c "/" then Some (inr None)
      else
        match matchChunk chunk name' with
        | None => None
        | Some (t, true, _) =>
            if (last && negb (String.eqb t ""))%bool
            then skipMatch chunk last name'
            else Some (inl t)
        | Some (_, false, Some err) => Some (inr (Some err))
        | Some (_, false, None) => skipMatch chunk last name'
        end
  end.

(** The final loop of [Match]: checks that the remainder of the pattern
    is syntactically valid. *)
Fixpoint checkRest (fuel : nat) (pattern : string) : option (option error) :=
  match fuel with
  | O => None
  | S fuel =>
      match pattern with
      | EmptyString => Some None
      | _ =>
          let '(_, chunk, pattern) := scanChunk pattern in
          match matchChunk chunk "" with
          | None => None
          | Some (_, _, Some err) => Some (Some err)
          | Some (_, _, None) => checkRest fuel pattern
          end
      end
  end.

Fixpoint Match_loop (fuel : nat) (pattern name : string)
    : option (bool * option error) :=
  match fuel with
  | O => None
  | S fuel =>
      match pattern with
      | EmptyString => Some (String.eqb name "", None)
      | _ =>
          let '(star, chunk, pattern) := scanChunk pattern in
          if (star && String.eqb chunk "")%bool then
            Some (negb (GoStrings.ContainsByte name "/"), None)
          else
            let last := String.eqb pattern "" in
            let no_match (_ : unit) :=
              match checkRest (S (String.length pattern)) pattern with
              | None => None
              | Some (Some err) => Some (false, Some err)
              | Some None => Some (false, None)
              end in
            let try_star (_ : unit) :=
              if star then
                match skipMatch chunk last name with
                | None => None
                | Some (inl t) => Match_loop fuel pattern t
                | Some (inr (Some err)) => Some (false, Some err)
                | Some (inr None) => no_match tt
                end
              else no_match tt in
            match matchChunk chunk name with
            | None => None
            | Some (t, ok, err) =>
                if (ok && (String.eqb t "" || negb last))%bool then
                  Match_loop fuel pattern t
                else
                  match err with
                  | Some e => Some (false, Some e)
                  | None => try_star tt
                  end
            end
      end
  end.

(** [Match] reports whether name matches the shell pattern. *)
Definition Match (pattern name : string) : bool * option error :=
  match Match_loop (S (String.length pattern)) pattern name with
  | Some r => r
  | None => (false, Some ErrBadPattern)
  end.

End GoPath.

(** [time.Timer] of the Go standard library (go 1.20, the toolchain the
    repository builds with).  A timer created at [now] with duration [d]
    is pending until [now + d]; from that instant on the runtime has sent
    one value on the channel [C] (buffer of one).  The send is applied
    when the timer is next looked at ([expire]). *)
Module GoTime.

Definition Second : Z := 1000000000.

Record Timer := mkTimer {
  when : Z;        (* the instant the timer expires *)
  pending : bool;  (* not yet expired or stopped *)
  C : bool         (* a value is buffered in the channel *)
}.

Definition NewTimer (now d : Z) : Timer :=
  {| when := now + d; pending := true; C := false |}.

Definition expire (now : Z) (t : Timer) : Timer :=
  if (pending t && (when t <=? now))%bool
  then {| when := when t; pending := false; C := true |}
  else t.

(** [select { case <-t.C: ...; default: ... }]: a receive that does not
    block.  The boolean tells whether a value was received. *)
Definition tryRecv (now : Z) (t : Timer) : bool * Timer :=
  let t := expire now t in
  (C t, {| when := when t; pending := pending t; C := false |}).

(** [t.Reset(d)]: the timer expires [d] from now; the channel is not
    drained. *)
Definition Reset (now d : Z) (t : Timer) : Timer :=
  let t := expire now t in
  {| when := now + d; pending := true; C := C t |}.

End GoTime.

(** ** Configuration (config.go): the part the table reads *)

Record PortMap := mkPortMap {
  ListenPort : Z;
  TargetPort : Z
}.

Record Listen := mkListen {
  ForeignAddress : string;
  HTTP : list PortMap;
  HTTPS : list PortMap
}.

(** [Config]: only the field [Listen] is read by the reverse proxy. *)
Record Config := mkConfig {
  cfg_Listen : Listen
}.

(** ** The log *)

Inductive LogArg :=
| ArgS (s : string)
| ArgD (n : Z).

(** One call of [log.Printf] (or [log.Println]): the format string of the
    source and its arguments. *)
Record LogLine := Printf {
  format : string;
  args : list LogArg
}.

(** ** A state monad that also collects the log lines written *)

Definition M (S A : Type) : Type := S -> A * S * list LogLine.

Global Instance M_ret {S} : MRet (M S) := fun A (a : A) s => (a, s, []).

Global Instance M_bind {S} : MBind (M S) :=
  fun A B (f : A -> M S B) (m : M S A) s =>
    let '(a, s1, l1) := m s in
    let '(b, s2, l2) := f a s1 in
    (b, s2, (l1 ++ l2)%list).

Definition ret {S A} (a : A) : M S A := mret a.
Definition get {S} : M S S := fun s => (s, s, []).
Definition put {S} (s : S) : M S unit := fun _ => (tt, s, []).
Definition log_Printf {S} (fmt : string) (a : list LogArg) : M S unit :=
  fun s => (tt, s, [Printf fmt a]).

(** Runs a computation on the map [x], which the caller holds by
    reference, and hands back the map as the computation left it. *)
Definition on {S T A} (x : T) (m : M T A) : M S (A * T) :=
  fun s => let '(a, x', l) := m x in ((a, x'), s, l).

(** ** Visiting order of [range] over a map *)

Record range_order := mkRange {
  visit :> list string -> list string;
  visit_perm : forall l, visit l ≡ₚ l
}.

Definition in_order : range_order := mkRange (fun l => l) (fun l => reflexivity l).
Definition reversed : range_order := mkRange reverse (@reverse_Permutation string).

Definition keys {V} (m : gmap string V) : list string := (map_to_list m).*1.

(** ** proxyHandler *)

Record URL := mkURL {
  Scheme : string;
  Host : string;
  Port : Z
}.

(** [http.Handler]: the only handlers the table holds are those made by
    [rproxy.NewSingleHostReverseProxy(destUrl)]; [destUrl] is the result of
    [url.Parse(fmt.Sprintf("http://%s:%d", ipaddress, v.TargetPort))], whose
    error the code discards. *)
Inductive http_Handler :=
| NewSingleHostReverseProxy (destUrl : URL).

Definition target (h : http_Handler) : URL :=
  match h with NewSingleHostReverseProxy u => u end.

Definition proxyHandlerLifetime : Z := 30 * GoTime.Second.

Record proxyHandler := mkProxyHandler {
  handler : http_Handler;
  timer : GoTime.Timer
}.

Definition newProxyHandler (now : Z) (h : http_Handler) : proxyHandler :=
  {| handler := h; timer := GoTime.NewTimer now proxyHandlerLifetime |}.

(** [alive]: the receive mutates the timer the handler points to, so the
    handler is handed back. *)
Definition alive (now : Z) (h : proxyHandler) : bool * proxyHandler :=
  let '(received, t) := GoTime.tryRecv now (timer h) in
  (negb received, {| handler := handler h; timer := t |}).

Definition extend (now : Z) (h : proxyHandler) : proxyHandler :=
  {| handler := handler h;
     timer := GoTime.Reset now proxyHandlerLifetime (timer h) |}.

(** ** proxyHandlers *)

Abbreviation proxyHandlers := (gmap Z (gmap string proxyHandler)).

(** The [range ph[port]] loop of [Handler]; [ips] is the visiting order.
    [delete] during the loop removes only the entry being visited. *)
Fixpoint Handler_range (now port : Z) (ips : list string)
    : M proxyHandlers (option http_Handler) :=
  match ips with
  | [] => ret None
  | ipaddress :: ips =>
      ph ← get;
      match ph !! port with
      | None => Handler_range now port ips
      | Some handlers =>
          match handlers !! ipaddress with
          | None => Handler_range now port ips
          | Some h =>
              let '(a, h) := alive now h in
              if a then
                put (<[port := <[ipaddress := h]> handlers]> ph) ;;
                ret (Some (handler h))
              else
                log_Printf "[info] proxy handler to %s is dead" [ArgS ipaddress] ;;
                put (<[port := delete ipaddress handlers]> ph) ;;
                Handler_range now port ips
          end
      end
  end.

Definition Handler (ρ : range_order) (now port : Z)
    : M proxyHandlers (option http_Handler) :=
  ph ← get;
  match ph !! port with
  | None => ret None
  | Some handlers =>
      if (size handlers =? 0)%nat then ret None
      else Handler_range now port (ρ (keys handlers))
  end.

Definition exists_ (now port : Z) (ipaddress : string) : M proxyHandlers bool :=
  ph ← get;
  match ph !! port with
  | None => ret false
  | Some handlers =>
      match handlers !! ipaddress with
      | None => ret false
      | Some h =>
          let '(a, h) := alive now h in
          if a then
            log_Printf "[debug] proxy handler to %s extends lifetime" [ArgS ipaddress] ;;
            put (<[port := <[ipaddress := extend now h]> handlers]> ph) ;;
            ret true
          else
            log_Printf "[info] proxy handler to %s is dead" [ArgS ipaddress] ;;
            put (<[port := delete ipaddress handlers]> ph) ;;
            ret false
      end
  end.

Definition add (now port : Z) (ipaddress : string) (h : http_Handler)
    : M proxyHandlers unit :=
  ph ← get;
  let handlers := default ∅ (ph !! port) in
  log_Printf "[info] new proxy handler to %s" [ArgS ipaddress] ;;
  put (<[port := <[ipaddress := newProxyHandler now h]> handlers]> ph).

(** ** ReverseProxy *)

Record ReverseProxy := mkReverseProxy {
  cfg : Config;
  domainMap : gmap string proxyHandlers
}.

Definition NewReverseProxy (cfg : Config) : ReverseProxy :=
  {| cfg := cfg; domainMap := ∅ |}.

Definition set_domainMap (r : ReverseProxy) (m : gmap string proxyHandlers)
    : ReverseProxy :=
  {| cfg := cfg r; domainMap := m |}.

(** The [range r.domainMap] loop of [Exists]. *)
Fixpoint Exists_range (subdomain : string) (names : list string) : bool :=
  match names with
  | [] => false
  | name :: names =>
      if fst (GoPath.Match name subdomain) then true
      else Exists_range subdomain names
  end.

Definition Exists (ρ : range_order) (subdomain : string) : M ReverseProxy bool :=
  r ← get;
  match domainMap r !! subdomain with
  | Some _ => ret true
  | None => ret (Exists_range subdomain (ρ (keys (domainMap r))))
  end.

Definition Subdomains (ρ : range_order) : M ReverseProxy (list string) :=
  r ← get;
  ret (fold_left (fun ds name => (ds ++ [name])%list) (ρ (keys (domainMap r))) []).

(** The [range r.domainMap] loop of [findHandler]: the first visited name
    that matches, with the map it is bound to. *)
Fixpoint findHandler_range (m : gmap string proxyHandlers) (subdomain : string)
    (names : list string) : option (string * proxyHandlers) :=
  match names with
  | [] => None
  | name :: names =>
      match m !! name with
      | Some ph =>
          if fst (GoPath.Match name subdomain) then Some (name, ph)
          else findHandler_range m subdomain names
      | None => findHandler_range m subdomain names
      end
  end.

(** The variable [proxyHandlers] of [findHandler] after the [if !ok]
    block, with the key of [r.domainMap] it was read from: the exact key
    when there is one, else the first visited name that matches.
    [None] is [proxyHandlers == nil]. *)
Definition findHandler_proxyHandlers (ρ : range_order) (r : ReverseProxy)
    (subdomain : string) : option (string * proxyHandlers) :=
  match domainMap r !! subdomain with
  | Some ph => Some (subdomain, ph)
  | None => findHandler_range (domainMap r) subdomain (ρ (keys (domainMap r)))
  end.

(** [findHandler]: [proxyHandlers] is a reference to the map stored under
    the key it was found at, so what [Handler] deletes is deleted there. *)
Definition findHandler (ρ ρh : range_order) (now : Z) (subdomain : string)
    (port : Z) : M ReverseProxy (option http_Handler) :=
  log_Printf "[debug] findHandler for %s:%d" [ArgS subdomain; ArgD port] ;;
  r ← get;
  match findHandler_proxyHandlers ρ r subdomain with
  | None => ret None
  | Some (name, ph) =>
      res ← on ph (Handler ρh now port);
      put (set_domainMap r (<[name := res.2]> (domainMap r))) ;;
      ret res.1
  end.

(** One turn of the [range r.cfg.Listen.HTTP] loop of [AddSubdomain];
    [continue] ends the turn. *)
Definition AddSubdomain_body (now : Z) (subdomain ipaddress : string)
    (targetPort : Z) (v : PortMap) : M proxyHandlers unit :=
  if negb (TargetPort v =? targetPort) then ret tt
  else
    e ← exists_ now (ListenPort v) ipaddress;
    if e : bool then ret tt
    else
      let destUrl :=
        {| Scheme := "http"; Host := ipaddress; Port := TargetPort v |} in
      add now (ListenPort v) ipaddress (NewSingleHostReverseProxy destUrl) ;;
      log_Printf "[info] add subdomain: %s:%d -> %s:%d"
        [ArgS subdomain; ArgD (ListenPort v); ArgS ipaddress; ArgD targetPort].

(** The [range r.cfg.Listen.HTTP] loop of [AddSubdomain]. *)
Fixpoint AddSubdomain_range (now : Z) (subdomain ipaddress : string)
    (targetPort : Z) (vs : list PortMap) : M proxyHandlers unit :=
  match vs with
  | [] => ret tt
  | v :: vs =>
      AddSubdomain_body now subdomain ipaddress targetPort v ;;
      AddSubdomain_range now subdomain ipaddress targetPort vs
  end.

Definition AddSubdomain (now : Z) (subdomain ipaddress : string)
    (targetPort : Z) : M ReverseProxy unit :=
  r ← get;
  let ph := default ∅ (domainMap r !! subdomain) in
  res ← on ph (AddSubdomain_range now subdomain ipaddress targetPort
                 (HTTP (cfg_Listen (cfg r))));
  put (set_domainMap r (<[subdomain := res.2]> (domainMap r))).

Definition RemoveSubdomain (subdomain : string) : M ReverseProxy unit :=
  log_Printf "[info] removing subdomain:" [ArgS subdomain] ;;
  r ← get;
  put (set_domainMap r (delete subdomain (domainMap r))).

Definition proxyAction := string.

Definition proxyAdd : proxyAction := "Add".
Definition proxyRemove : proxyAction := "Remove".

Record proxyControl := mkProxyControl {
  Action : proxyAction;
  Subdomain : string;
  IPAddress : string;
  ctl_Port : Z
}.

Definition Modify (now : Z) (action : proxyControl) : M ReverseProxy unit :=
  if String.eqb (Action action) proxyAdd then
    AddSubdomain now (Subdomain action) (IPAddress action) (ctl_Port action)
  else if String.eqb (Action action) proxyRemove then
    RemoveSubdomain (Subdomain action)
  else
    log_Printf "[error] unknown proxy action: %s" [ArgS (Action action)].

(** What [ServeHTTPWithPort] writes to the client: the exchange is handed
    to [handler.ServeHTTP], or [http.NotFound] answers. *)
Inductive Response :=
| ServeHTTP (h : http_Handler)
| NotFound.

Definition ServeHTTPWithPort (ρ ρh : range_order) (now : Z) (reqHost : string)
    (port : Z) : M ReverseProxy Response :=
  let subdomain := GoStrings.ToLower (GoStrings.SplitFirst reqHost ".") in
  h ← findHandler ρ ρh now subdomain port;
  match h with
  | Some handler =>
      log_Printf "[debug] proxy handler found for subdomain %s" [ArgS subdomain] ;;
      ret (ServeHTTP handler)
  | None =>
      log_Printf "[warn] proxy handler not found for subdomain %s" [ArgS subdomain] ;;
      ret NotFound
  end.

(** ** Reading the outcome of a method call *)

Definition result {S A} (x : A * S * list LogLine) : A := x.1.1.
Definition state {S A} (x : A * S * list LogLine) : S := x.1.2.
Definition logged {S A} (x : A * S * list LogLine) : list LogLine := x.2.

(** The handlers under [(domain, port)]; empty when there is no such
    bucket. *)
Definition bucket (r : ReverseProxy) (domain : string) (port : Z)
    : gmap string proxyHandler :=
  default ∅ (domainMap r !! domain ≫= (.!! port)).

(** The address a handler forwards to. *)
Definition forwards_to (h : http_Handler) : string := Host (target h).

(** ** Calls on the table, and the states the table can reach *)

Inductive call :=
| DoAdd (now : Z) (domain address : string) (targetPort : Z)
| DoRemove (domain : string)
| DoLookup (ρ ρh : range_order) (now : Z) (domain : string) (port : Z)
| DoExists (ρ : range_order) (domain : string)
| DoSubdomains (ρ : range_order).

Definition exec (c : call) (r : ReverseProxy) : ReverseProxy :=
  match c with
  | DoAdd now d a tp => state (AddSubdomain now d a tp r)
  | DoRemove d => state (RemoveSubdomain d r)
  | DoLookup ρ ρh now d p => state (findHandler ρ ρh now d p r)
  | DoExists ρ d => state (Exists ρ d r)
  | DoSubdomains ρ => state (Subdomains ρ r)
  end.

Definition run (cs : list call) (r : ReverseProxy) : ReverseProxy :=
  fold_left (fun r c => exec c r) cs r.

Definition is_Add (c : call) : bool :=
  match c with DoAdd _ _ _ _ => true | _ => false end.

Definition is_Remove (c : call) : bool :=
  match c with DoRemove _ => true | _ => false end.

(** [reachable c t r]: the table built from configuration [c] can be in
    state [r] when the clock reads [t]. *)
Inductive reachable (c : Config) : Z -> ReverseProxy -> Prop :=
| reach_New t : reachable c t (NewReverseProxy c)
| reach_later t t' r : reachable c t r -> t <= t' -> reachable c t' r
| reach_Add t r d a tp :
    reachable c t r -> reachable c t (state (AddSubdomain t d a tp r))
| reach_Remove t r d :
    reachable c t r -> reachable c t (state (RemoveSubdomain d r))
| reach_Lookup t r ρ ρh d p :
    reachable c t r -> reachable c t (state (findHandler ρ ρh t d p r)).

(** A stored handler whose timer is pending, with an empty channel, and
    expires at [T] at the latest. *)
Definition expires_by (T : Z) (h : proxyHandler) : Prop :=
  GoTime.pending (timer h) = true /\ GoTime.C (timer h) = false /\
  GoTime.when (timer h) <= T.

Definition handlers_ok (T : Z) (ph : proxyHandlers) : Prop :=
  forall port hs ip h,
    ph !! port = Some hs -> hs !! ip = Some h ->
    expires_by T h /\ forwards_to (handler h) = ip.

Definition table_ok (T : Z) (r : ReverseProxy) : Prop :=
  forall d ph, domainMap r !! d = Some ph -> handlers_ok T ph.

(** The listen ports of a list of port maps. *)
Definition listen_ports (l : list PortMap) : list Z := ListenPort <$> l.

(** The table [r] with other HTTPS port maps in its configuration. *)
Definition set_HTTPS (r : ReverseProxy) (https : list PortMap) : ReverseProxy :=
  {| cfg := {| cfg_Listen :=
                 {| ForeignAddress := ForeignAddress (cfg_Listen (cfg r));
                    HTTP := HTTP (cfg_Listen (cfg r));
                    HTTPS := https |} |};
     domainMap := domainMap r |}.

(** A configuration to run the table on: two HTTP port maps and one HTTPS
    port map. *)
Definition example_config : Config :=
  {| cfg_Listen :=
       {| ForeignAddress := "127.0.0.1";
          HTTP := [mkPortMap 80 5000; mkPortMap 8080 6000];
          HTTPS := [mkPortMap 443 5000] |} |}.

(** Bytes and strings that [path.Match] reads as themselves: none of the
    pattern operators. *)
Definition literalByte (c : ascii) : bool :=
  negb (Ascii.eqb c "*" || Ascii.eqb c "?" || Ascii.eqb c "[" || Ascii.eqb c "\").

Fixpoint literal (s : string) : bool :=
  match s with
  | EmptyString => true
  | String c s' => (literalByte c && literal s')%bool
  end.

(** Tables to run the methods on. *)
Definition table_foo : ReverseProxy :=
  state (AddSubdomain 0 "foo" "10.0.0.1" 5000 (NewReverseProxy example_config)).

Definition table_pr : ReverseProxy :=
  state (AddSubdomain 0 "pr-*" "10.0.0.1" 5000 (NewReverseProxy example_config)).

Definition table_Foo : ReverseProxy :=
  state (AddSubdomain 0 "Foo" "10.0.0.1" 5000 (NewReverseProxy example_config)).

(** The handler [AddSubdomain] leaves at [ipaddress] in a bucket [hs] it
    visits: the old one renewed when it is alive, a new one otherwise. *)
Definition slot_after (now : Z) (ipaddress : string) (targetPort : Z)
    (hs : gmap string proxyHandler) : proxyHandler :=
  let new := newProxyHandler now (NewSingleHostReverseProxy
               {| Scheme := "http"; Host := ipaddress; Port := targetPort |}) in
  match hs !! ipaddress with
  | Some h => if (alive now h).1 then extend now (alive now h).2 else new
  | None => new
  end.

Definition visits (tp p : Z) (v : PortMap) : bool :=
  ((TargetPort v =? tp) && (ListenPort v =? p))%bool.


(** ** The ECS part of the configuration (config.go)

    Go pointers that may be [nil] are options; a slice is an optional
    list, [None] being the [nil] slice; a call that dereferences a [nil]
    pointer panics. *)

Definition slice (A : Type) : Type := option (list A).

Definition len {A} (s : slice A) : nat :=
  match s with
  | Some l => length l
  | None => O
  end.

(** The elements [range] visits. *)
Definition elems {A} (s : slice A) : list A := default [] s.

(** [append(s, x)]. *)
Definition slice_append {A} (s : slice A) (x : A) : slice A :=
  Some (elems s ++ [x])%list.

Inductive outcome (A : Type) :=
| Returns (a : A)
| Panics.
Arguments Returns {A} a.
Arguments Panics {A}.

(** The structures of [github.com/aws/aws-sdk-go/service/ecs] the
    configuration is converted to, with the fields the code reads or
    writes. *)
Module ecs.

Record CapacityProviderStrategyItem := mkCapacityProviderStrategyItem {
  CapacityProvider : option string;
  Weight : option Z;
  Base : option Z
}.

Record AwsVpcConfiguration := mkAwsVpcConfiguration {
  AssignPublicIp : option string;
  SecurityGroups : slice (option string);
  Subnets : slice (option string)
}.

Record NetworkConfiguration := mkNetworkConfiguration {
  AwsvpcConfiguration : option AwsVpcConfiguration
}.

Record Task := mkTask {
  Group : option string
}.

Record Service := mkService {
  svc_NetworkConfiguration : option NetworkConfiguration
}.

End ecs.

Record CapacityProviderStrategyItem := mkCapacityProviderStrategyItem {
  CapacityProvider : option string;
  Weight : option Z;
  Base : option Z
}.

(** [CapacityProviderStrategy] is [[]*CapacityProviderStrategyItem]. *)
Abbreviation CapacityProviderStrategy := (slice (option CapacityProviderStrategyItem)).

Record AwsVpcConfiguration := mkAwsVpcConfiguration {
  AssignPublicIp : option string;
  SecurityGroups : slice (option string);
  Subnets : slice (option string)
}.

Record NetworkConfiguration := mkNetworkConfiguration {
  nc_AwsVpcConfiguration : option AwsVpcConfiguration
}.

Record ECSCfg := mkECSCfg {
  Region : string;
  Cluster : string;
  ECS_CapacityProviderStrategy : CapacityProviderStrategy;
  LaunchType : option string;
  ECS_NetworkConfiguration : option NetworkConfiguration;
  DefaultTaskDefinition : string;
  EnableExecuteCommand : option bool;
  capacityProviderStrategy : slice (option ecs.CapacityProviderStrategyItem);
  networkConfiguration : option ecs.NetworkConfiguration
}.

Definition valid (c : ECSCfg) : bool :=
  if String.eqb (Region c) "" then false
  else if String.eqb (Cluster c) "" then false
  else if (bool_decide (LaunchType c = None) &&
           bool_decide (capacityProviderStrategy c = None))%bool then false
  else if bool_decide (networkConfiguration c = None) then false
  else true.

(** [CapacityProviderStrategyItem.toSDK], a method on the value. *)
Definition CapacityProviderStrategyItem_toSDK (i : CapacityProviderStrategyItem)
    : ecs.CapacityProviderStrategyItem :=
  {| ecs.CapacityProvider := CapacityProvider i;
     ecs.Weight := Weight i;
     ecs.Base := Base i |}.

(** The [range s] loop of [CapacityProviderStrategy.toSDK]; calling the
    value method through a [nil] item panics. *)
Fixpoint CapacityProviderStrategy_toSDK_range
    (s : list (option CapacityProviderStrategyItem))
    (items : slice (option ecs.CapacityProviderStrategyItem))
    : outcome (slice (option ecs.CapacityProviderStrategyItem)) :=
  match s with
  | [] => Returns items
  | item :: s =>
      match item with
      | None => Panics
      | Some i =>
          CapacityProviderStrategy_toSDK_range s
            (slice_append items (Some (CapacityProviderStrategyItem_toSDK i)))
      end
  end.

Definition CapacityProviderStrategy_toSDK (s : CapacityProviderStrategy)
    : outcome (slice (option ecs.CapacityProviderStrategyItem)) :=
  if (len s =? 0)%nat then Returns None
  else CapacityProviderStrategy_toSDK_range (elems s) None.

(** [AwsVpcConfiguration.toSDK], a method on the pointer: it reads the
    fields of its receiver without a [nil] check. *)
Definition AwsVpcConfiguration_toSDK (c : option AwsVpcConfiguration)
    : outcome (option ecs.AwsVpcConfiguration) :=
  match c with
  | None => Panics
  | Some c =>
      Returns (Some {| ecs.AssignPublicIp := AssignPublicIp c;
                       ecs.Subnets := Subnets c;
                       ecs.SecurityGroups := SecurityGroups c |})
  end.

Definition NetworkConfiguration_toSDK (c : option NetworkConfiguration)
    : outcome (option ecs.NetworkConfiguration) :=
  match c with
  | None => Returns None
  | Some c =>
      match AwsVpcConfiguration_toSDK (nc_AwsVpcConfiguration c) with
      | Panics => Panics
      | Returns a => Returns (Some {| ecs.AwsvpcConfiguration := a |})
      end
  end.

(** Go's [error] values of [fillECSDefaults]: the error of a call to the
    outside, or [fmt.Errorf(format, a)]. *)
Inductive GoError :=
| External (msg : string)
| Errorf (format : string) (a : string).

(** What [metadata.Get] answers. *)
Inductive TaskMetadata :=
| TaskMetadataV3 (Cluster TaskARN : string)
| TaskMetadataV4 (Cluster TaskARN : string).

(** The outside of [fillECSDefaults]: the environment, the task metadata
    endpoint and the two calls of the ECS service ([Cluster] and the names
    asked for are the arguments). *)
Record Outside := mkOutside {
  Getenv : string -> string;
  metadata_Get : GoError + TaskMetadata;
  DescribeTasks : string -> list string -> GoError + list ecs.Task;
  DescribeServices : string -> list string -> GoError + list ecs.Service
}.

(** [fmt.Sprintf(format, a)] for a format with one [%s]. *)
Fixpoint Sprintf1 (format a : string) : string :=
  match format with
  | String "%" (String "s" rest) => a ++ rest
  | String c rest => String c (Sprintf1 rest a)
  | EmptyString => EmptyString
  end.

(** [err.Error()]. *)
Definition Error (e : GoError) : string :=
  match e with
  | External msg => msg
  | Errorf format a => Sprintf1 format a
  end.

(** [%t]. *)
Definition fmt_t (b : bool) : string := if b then "true" else "false".

(** [s[n:]]. *)
Fixpoint string_from (n : nat) (s : string) : string :=
  match n, s with
  | O, _ => s
  | S n, String _ s' => string_from n s'
  | S _, EmptyString => EmptyString
  end.

Section fillECSDefaults.

(** How values are printed: [ECSCfg.String] (the JSON of the fields, by
    [json.Marshal]) and [%v]. *)
Variable ECSCfg_String : ECSCfg -> string.
Variable fmt_v_meta : TaskMetadata -> string.
Variable fmt_v_networkConfiguration : option ecs.NetworkConfiguration -> string.

Variable out : Outside.

Definition set_Region (c : ECSCfg) (x : string) : ECSCfg :=
  mkECSCfg x (Cluster c) (ECS_CapacityProviderStrategy c) (LaunchType c)
    (ECS_NetworkConfiguration c) (DefaultTaskDefinition c) (EnableExecuteCommand c)
    (capacityProviderStrategy c) (networkConfiguration c).

Definition set_LaunchType (c : ECSCfg) (x : option string) : ECSCfg :=
  mkECSCfg (Region c) (Cluster c) (ECS_CapacityProviderStrategy c) x
    (ECS_NetworkConfiguration c) (DefaultTaskDefinition c) (EnableExecuteCommand c)
    (capacityProviderStrategy c) (networkConfiguration c).

Definition set_EnableExecuteCommand (c : ECSCfg) (x : option bool) : ECSCfg :=
  mkECSCfg (Region c) (Cluster c) (ECS_CapacityProviderStrategy c) (LaunchType c)
    (ECS_NetworkConfiguration c) (DefaultTaskDefinition c) x
    (capacityProviderStrategy c) (networkConfiguration c).

Definition set_networkConfiguration (c : ECSCfg)
    (x : option ecs.NetworkConfiguration) : ECSCfg :=
  mkECSCfg (Region c) (Cluster c) (ECS_CapacityProviderStrategy c) (LaunchType c)
    (ECS_NetworkConfiguration c) (DefaultTaskDefinition c) (EnableExecuteCommand c)
    (capacityProviderStrategy c) x.

(** The configuration after the three defaults of [fillECSDefaults]. *)
Definition with_defaults (c : ECSCfg) : ECSCfg :=
  mkECSCfg
    (if String.eqb (Region c) "" then Getenv out "AWS_REGION" else Region c)
    (Cluster c) (ECS_CapacityProviderStrategy c)
    (match LaunchType c, ECS_CapacityProviderStrategy c with
     | None, None => Some "FARGATE"
     | l, _ => l
     end)
    (ECS_NetworkConfiguration c) (DefaultTaskDefinition c)
    (Some (default true (EnableExecuteCommand c)))
    (capacityProviderStrategy c) (networkConfiguration c).

Definition when_ (b : bool) (m : M ECSCfg unit) : M ECSCfg unit :=
  if b then m else ret tt.

(** The three defaults set before the task metadata is asked for. *)
Definition fillECSDefaults_defaults : M ECSCfg unit :=
  (c ← get;
   when_ (String.eqb (Region c) "")
     (put (set_Region c (Getenv out "AWS_REGION")) ;;
      log_Printf "[info] AWS_REGION is not set, using region=%s"
        [ArgS (Getenv out "AWS_REGION")])) ;;
  (c ← get;
   when_ (bool_decide (LaunchType c = None) &&
          bool_decide (ECS_CapacityProviderStrategy c = None))
     (put (set_LaunchType c (Some "FARGATE")) ;;
      log_Printf
        "[info] launch_type and capacity_provider_strategy are not set, using launch_type=%s"
        [ArgS "FARGATE"])) ;;
  (c ← get;
   when_ (bool_decide (EnableExecuteCommand c = None))
     (put (set_EnableExecuteCommand c (Some true)) ;;
      log_Printf
        "[info] enable_execute_command is not set, using enable_execute_command=%t"
        [ArgS (fmt_t true)])).

(** From [metadata.Get] to the end of the body. *)
Definition fillECSDefaults_network : M ECSCfg (option GoError) :=
  match metadata_Get out with
  | inl err => ret (Some err)
  | inr meta =>
      log_Printf "[debug] task metadata: %v" [ArgS (fmt_v_meta meta)] ;;
      let '(cluster, taskArn) :=
        match meta with
        | TaskMetadataV3 cl arn => (cl, arn)
        | TaskMetadataV4 cl arn => (cl, arn)
        end in
      match DescribeTasks out cluster [taskArn] with
      | inl err => ret (Some err)
      | inr [] => ret (Some (Errorf "cannot find task: %s" taskArn))
      | inr (task :: _) =>
          let group := default "" (ecs.Group task) in
          let service :=
            if String.prefix "service:" group then string_from 8 group else "" in
          match DescribeServices out cluster [service] with
          | inl err => ret (Some err)
          | inr [] => ret (Some (Errorf "cannot find service: %s" service))
          | inr (svc :: _) =>
              c ← get;
              when_ (bool_decide (networkConfiguration c = None))
                (put (set_networkConfiguration c (ecs.svc_NetworkConfiguration svc)) ;;
                 log_Printf
                   "[info] network_configuration is not set, using network_configuration=%v"
                   [ArgS (fmt_v_networkConfiguration (ecs.svc_NetworkConfiguration svc))]) ;;
              ret None
          end
      end
  end.

(** The deferred function: it runs when the body returns. *)
Definition fillECSDefaults_deferred : M ECSCfg unit :=
  c ← get;
  if valid c then
    log_Printf "[info] built ECS config: %s" [ArgS (ECSCfg_String c)]
  else
    log_Printf "[error] invalid ECS config: %s" [ArgS (ECSCfg_String c)] ;;
    log_Printf "[error] ECS config is invalid, so you may not be able to launch ECS tasks" [].

(** [fillECSDefaults] reads and writes the field [ECS] of its receiver
    only: the state is that field. *)
Definition fillECSDefaults : M ECSCfg (option GoError) :=
  fillECSDefaults_defaults ;;
  err ← fillECSDefaults_network;
  fillECSDefaults_deferred ;;
  ret err.

(** [NewConfig] from the point where [config.LoadWithEnv] has loaded the
    file, on the field [ECS]: the two conversions, then the defaults,
    whose error is logged and dropped.  The log is what is written from
    that point on. *)
Definition NewConfig_ECS (loaded : ECSCfg) : outcome (ECSCfg * list LogLine) :=
  match CapacityProviderStrategy_toSDK (ECS_CapacityProviderStrategy loaded) with
  | Panics => Panics
  | Returns cps =>
      match NetworkConfiguration_toSDK (ECS_NetworkConfiguration loaded) with
      | Panics => Panics
      | Returns nc =>
          let c :=
            mkECSCfg (Region loaded) (Cluster loaded)
              (ECS_CapacityProviderStrategy loaded) (LaunchType loaded)
              (ECS_NetworkConfiguration loaded) (DefaultTaskDefinition loaded)
              (EnableExecuteCommand loaded) cps nc in
          let '(err, c', lg) := fillECSDefaults c in
          Returns (c',
                   match err with
                   | Some e =>
                       (lg ++ [Printf "[warn] failed to fill ECS defaults: %s"
                                 [ArgS (Error e)]])%list
                   | None => lg
                   end)
      end
  end.

End fillECSDefaults.

(** An outside to run [NewConfig] on: the task runs in the service [web]
    of the cluster [dev], and the service has a network configuration. *)
Definition example_outside : Outside :=
  {| Getenv := fun name => if String.eqb name "AWS_REGION" then "ap-northeast-1" else "";
     metadata_Get := inr (TaskMetadataV4 "dev" "arn:aws:ecs:task/dev/1");
     DescribeTasks := fun _ _ => inr [ecs.mkTask (Some "service:web")];
     DescribeServices := fun _ services =>
       if bool_decide (services = ["web"])
       then inr [ecs.mkService
                   (Some (ecs.mkNetworkConfiguration
                            (Some (ecs.mkAwsVpcConfiguration (Some "ENABLED") None
                                     (Some [Some "subnet-1"])))))]
       else inr [] |}.

(** A configuration file that gives the cluster only. *)
Definition example_loaded : ECSCfg :=
  {| Region := ""; Cluster := "dev"; ECS_CapacityProviderStrategy := None;
     LaunchType := None; ECS_NetworkConfiguration := None;
     DefaultTaskDefinition := ""; EnableExecuteCommand := None;
     capacityProviderStrategy := None; networkConfiguration := None |}.

(** ** main.go: [overrideWithEnv]

    [strings.ToUpper] of the Go standard library.  On a string whose
    bytes are all below [utf8.RuneSelf] it maps the bytes 'a'..'z' to
    'A'..'Z' and keeps the others; on any other string it returns
    [Map(unicode.ToUpper, s)], which works on runes, may change the
    length in bytes, and is left to the library ([Map_ToUpper]). *)
Definition toUpperByte (c : ascii) : ascii :=
  if (Ascii.leb "a" c && Ascii.leb c "z")%bool
  then ascii_of_N (N_of_ascii c - 32)
  else c.

Fixpoint isASCII (s : string) : bool :=
  match s with
  | EmptyString => true
  | String c s' => ((N_of_ascii c <? 128)%N && isASCII s')%bool
  end.

Fixpoint upperBytes (s : string) : string :=
  match s with
  | EmptyString => EmptyString
  | String c s' => String (toUpperByte c) (upperBytes s')
  end.

Definition ToUpper (Map_ToUpper : string -> string) (s : string) : string :=
  if isASCII s then upperBytes s else Map_ToUpper s.

(** [strings.Replace(s, old, new, -1)] for one-byte [old] and [new]: every
    byte equal to [old] is replaced, in any string. *)
Fixpoint ReplaceByte (s : string) (old new : ascii) : string :=
  match s with
  | EmptyString => EmptyString
  | String c s' => String (if Ascii.eqb c old then new else c) (ReplaceByte s' old new)
  end.

Section overrideWithEnv.

(** [flag.Flag], with the fields the function reads; [f.Value.Set(s)]
    is the method of the flag's value, whose error is dropped. *)
Variable Value : Type.
Variable Value_Set : Value -> string -> Value.
Variable Map_ToUpper : string -> string.

Record Flag := mkFlag {
  flag_Name : string;
  flag_Value : Value
}.

Definition overrideWithEnv (getenv : string -> string) (f : Flag) : Flag :=
  let name := ToUpper Map_ToUpper (flag_Name f) in
  let name := ReplaceByte name "-" "_" in
  let s := getenv ("MIRAGE_" ++ name) in
  if negb (String.eqb s "")
  then {| flag_Name := flag_Name f; flag_Value := Value_Set (flag_Value f) s |}
  else f.

End overrideWithEnv.

Arguments alive : simpl never.
Arguments extend : simpl never.
Arguments newProxyHandler : simpl never.
Arguments GoPath.Match : simpl never.

(** * Properties

    ** The matcher terminates within its bound *)

Module GoPathFacts.
Import GoPath.

Lemma tail_length s : (String.length (tail s) <= String.length s)%nat.
Proof. destruct s; simpl; lia. Qed.

Lemma getEsc_shorter chunk r nchunk :
  getEsc chunk = (r, nchunk, None) ->
  (String.length nchunk < String.length chunk)%nat.
Proof.
  unfold getEsc. destruct chunk as [|c rest]; [discriminate|].
  destruct (_ || _)%bool; [discriminate|].
  destruct (Ascii.eqb c "\").
  - destruct rest as [|r' n']; [discriminate|].
    destruct n'; [discriminate|]. intros [= <- <-]. simpl. lia.
  - destruct rest; [discriminate|]. intros [= <- <-]. simpl. lia.
Qed.

Lemma classRanges_total fuel : forall r chunk m nr,
  (String.length chunk < fuel)%nat ->
  exists res, classRanges fuel r chunk m nr = Some res /\
    forall m' c', res = inl (m', c') ->
      (String.length c' < String.length chunk)%nat.
Proof.
  induction fuel as [|fuel IH]; intros r chunk m nr Hlt; [lia|].
  simpl. destruct (_ && _)%bool eqn:Hstop.
  - eexists; split; [reflexivity|]. intros m' c' [= <- <-].
    destruct chunk; [discriminate|]. simpl. lia.
  - destruct (getEsc chunk) as [[lo chunk1] [e|]] eqn:E1.
    { eexists; split; [reflexivity|]. discriminate. }
    apply getEsc_shorter in E1.
    destruct (startsWith chunk1 "-").
    + destruct (getEsc (tail chunk1)) as [[hi chunk2] [e|]] eqn:E2.
      { eexists; split; [reflexivity|]. discriminate. }
      apply getEsc_shorter in E2. pose proof (tail_length chunk1).
      destruct (IH r chunk2 (m || (Ascii.leb lo r && Ascii.leb r hi))%bool (S nr))
        as (res & -> & Hres); [lia|].
      eexists; split; [reflexivity|]. intros m' c' ->.
      specialize (Hres _ _ eq_refl). lia.
    + destruct (IH r chunk1 (m || (Ascii.leb lo r && Ascii.leb r lo))%bool (S nr))
        as (res & -> & Hres); [lia|].
      eexists; split; [reflexivity|]. intros m' c' ->.
      specialize (Hres _ _ eq_refl). lia.
Qed.

Lemma matchChunk_loop_total fuel : forall failed chunk s,
  (String.length chunk < fuel)%nat ->
  is_Some (matchChunk_loop fuel failed chunk s).
Proof.
  induction fuel as [|fuel IH]; intros failed chunk s Hlt; [lia|].
  cbn [matchChunk_loop]. destruct chunk as [|c chunk1]; [eauto|]. simpl in Hlt.
  destruct (Ascii.eqb c "[").
  - destruct (if (failed || _)%bool then _ else _) as [r s0].
    set (chunk2 := if startsWith chunk1 "^" then tail chunk1 else chunk1).
    assert (String.length chunk2 <= String.length chunk1)%nat.
    { subst chunk2. destruct (startsWith _ _); [apply tail_length|lia]. }
    destruct (classRanges_total (S (String.length chunk2)) r chunk2 false O)
      as (res & -> & Hres); [lia|].
    destruct res as [[m' c']|e]; [|eauto].
    specialize (Hres _ _ eq_refl). apply IH. lia.
  - destruct (Ascii.eqb c "?").
    + destruct (failed || _)%bool; [apply IH; lia|].
      destruct s; apply IH; lia.
    + destruct (Ascii.eqb c "\").
      * destruct chunk1 as [|c' chunk2]; [eauto|]. simpl in Hlt.
        destruct (failed || _)%bool; [apply IH; lia|].
        destruct s; apply IH; lia.
      * destruct (failed || _)%bool; [apply IH; lia|].
        destruct s; apply IH; lia.
Qed.

Lemma matchChunk_total chunk s : is_Some (matchChunk chunk s).
Proof. apply matchChunk_loop_total. lia. Qed.


Lemma substring_length_le s : forall n m,
  (String.length (substring n m s) <= m)%nat.
Proof.
  induction s as [|c s IH]; intros [|n] [|m]; simpl; try lia.
  - specialize (IH 0%nat m). lia.
  - apply (IH n 0%nat).
  - apply (IH n (S m)).
Qed.

Lemma skipStars_length p :
  (String.length (snd (skipStars p)) <= String.length p)%nat /\
  (fst (skipStars p) = true ->
     (String.length (snd (skipStars p)) < String.length p)%nat).
Proof.
  induction p as [|c p [IH1 IH2]]; simpl; [split; [lia|discriminate]|].
  destruct (Ascii.eqb c "*"); simpl; split; try lia; discriminate.
Qed.

Lemma skipStars_fst_false p :
  fst (skipStars p) = false -> snd (skipStars p) = p.
Proof. destruct p as [|c p]; simpl; [done|]. by destruct (Ascii.eqb c "*"). Qed.

Lemma skipStars_snd_no_star p : startsWith (snd (skipStars p)) "*" = false.
Proof.
  induction p as [|c p IH]; simpl; [done|].
  destruct (Ascii.eqb c "*") eqn:E; simpl; [done|]. by rewrite E.
Qed.

Lemma scanLen_pos p :
  p <> "" -> startsWith p "*" = false -> (0 < scanLen false false p)%nat.
Proof.
  destruct p as [|c p]; [done|]. simpl. intros _ ->.
  destruct (Ascii.eqb c "\"); [destruct p; lia|].
  destruct (Ascii.eqb c "["); [lia|]. destruct (Ascii.eqb c "]"); lia.
Qed.

Lemma scanLen_le p : forall inrange esc,
  (scanLen inrange esc p <= String.length p)%nat.
Proof.
  induction p as [|c p IH]; intros inrange esc; simpl; [lia|].
  destruct esc; [specialize (IH inrange false); lia|].
  destruct (Ascii.eqb c "\").
  { destruct p; [simpl; lia|]. specialize (IH inrange true). lia. }
  destruct (Ascii.eqb c "["); [specialize (IH true false); lia|].
  destruct (Ascii.eqb c "]"); [specialize (IH false false); lia|].
  destruct (Ascii.eqb c "*"); [destruct inrange|];
    try specialize (IH inrange false); try specialize (IH true false); lia.
Qed.

Lemma scanChunk_shorter pattern star chunk rest :
  pattern <> "" ->
  scanChunk pattern = (star, chunk, rest) ->
  (String.length rest < String.length pattern)%nat.
Proof.
  unfold scanChunk. intros Hne.
  destruct (skipStars pattern) as [st p'] eqn:E. intros [= <- <- <-].
  pose proof (skipStars_length pattern) as [H1 H2].
  pose proof (skipStars_snd_no_star pattern) as H3.
  pose proof (skipStars_fst_false pattern) as H4.
  rewrite E in *. simpl in *.
  pose proof (substring_length_le p' (scanLen false false p')
                (String.length p' - scanLen false false p')).
  pose proof (scanLen_le p' false false).
  destruct st; [specialize (H2 eq_refl); lia|].
  specialize (H4 eq_refl). subst p'.
  pose proof (scanLen_pos pattern Hne H3). 
  assert (0 < String.length pattern)%nat by (destruct pattern; [done|simpl; lia]).
  lia.
Qed.

Lemma skipMatch_total chunk last name : is_Some (skipMatch chunk last name).
Proof.
  induction name as [|c name IH]; simpl; [eauto|].
  destruct (Ascii.eqb c "/"); [eauto|].
  destruct (matchChunk_total chunk name) as [[[t ok] err] ->].
  destruct ok; [destruct (_ && _)%bool; eauto|]. destruct err; eauto.
Qed.

Lemma checkRest_total fuel : forall pattern,
  (String.length pattern < fuel)%nat -> is_Some (checkRest fuel pattern).
Proof.
  induction fuel as [|fuel IH]; intros pattern Hlt; [lia|].
  cbn [checkRest]. destruct pattern as [|c p]; [eauto|].
  destruct (scanChunk (String c p)) as [[st chunk] rest] eqn:E.
  apply scanChunk_shorter in E; [|done].
  destruct (matchChunk_total chunk "") as [[[t ok] err] ->].
  destruct err; [eauto|]. apply IH. lia.
Qed.

Lemma Match_loop_total fuel : forall pattern name,
  (String.length pattern < fuel)%nat -> is_Some (Match_loop fuel pattern name).
Proof.
  induction fuel as [|fuel IH]; intros pattern name Hlt; [lia|].
  cbn [Match_loop]. destruct pattern as [|c p]; [eauto|].
  destruct (scanChunk (String c p)) as [[st chunk] rest] eqn:E.
  apply scanChunk_shorter in E; [|done].
  destruct (_ && _)%bool; [eauto|].
  assert (Hno : is_Some (match checkRest (S (String.length rest)) rest with
               | Some (Some err) => Some (false, Some err)
               | Some None => Some (false, None)
               | None => None end)).
  { destruct (checkRest_total (S (String.length rest)) rest) as [[e|] ->];
      [lia|eauto..]. }
  destruct (matchChunk_total chunk name) as [[[t ok] err] ->].
  destruct (_ && _)%bool; [apply IH; lia|].
  destruct err; [eauto|]. destruct st; [|exact Hno].
  destruct (skipMatch_total chunk (String.eqb rest "") name) as [[t'|[e|]] ->];
    [apply IH; lia|eauto|exact Hno].
Qed.

Theorem Match_fuel_enough pattern name :
  Match_loop (S (String.length pattern)) pattern name = Some (Match pattern name).
Proof.
  unfold Match.
  destruct (Match_loop_total (S (String.length pattern)) pattern name) as [r ->];
    [lia|done].
Qed.
End GoPathFacts.

(** ** Timers and liveness *)

Lemma lifetime_pos : 0 < proxyHandlerLifetime.
Proof. reflexivity. Qed.

Lemma alive_true_same now h :
  (alive now h).1 = true -> (alive now h).2 = h.
Proof.
  destruct h as [hd [w p c]]. unfold alive, GoTime.tryRecv, GoTime.expire. simpl.
  destruct (p && (w <=? now))%bool; simpl; [discriminate|].
  destruct c; simpl; [discriminate|done].
Qed.

Lemma alive_handler now h : handler (alive now h).2 = handler h.
Proof. unfold alive. by destruct (GoTime.tryRecv _ _). Qed.

Lemma alive_expires_by T now h :
  expires_by T h -> (alive now h).1 = bool_decide (now < GoTime.when (timer h)).
Proof.
  destruct h as [hd [w p c]]. intros (Hp & Hc & Hw). simpl in *. subst.
  unfold alive, GoTime.tryRecv, GoTime.expire. simpl.
  destruct (Z.leb_spec w now); simpl.
  - by rewrite bool_decide_eq_false_2; [|lia].
  - by rewrite bool_decide_eq_true_2; [|lia].
Qed.

Lemma expired_not_alive T now h : expires_by T h -> T <= now -> (alive now h).1 = false.
Proof.
  intros H Hle. rewrite (alive_expires_by T); [|done].
  destruct H as (_ & _ & ?). apply bool_decide_eq_false_2. lia.
Qed.

Lemma extend_alive now now' h :
  (alive now h).1 = true -> now <= now' < now + proxyHandlerLifetime ->
  (alive now' (extend now (alive now h).2)).1 = true.
Proof.
  intros Ha Hlt. rewrite alive_true_same by done.
  destruct h as [hd [w p c]].
  unfold alive, GoTime.tryRecv, GoTime.expire in Ha. simpl in Ha.
  unfold extend, alive, GoTime.Reset, GoTime.tryRecv, GoTime.expire. simpl.
  destruct (p && (w <=? now))%bool; simpl in *; [discriminate|].
  destruct c; [discriminate|]. simpl.
  destruct (Z.leb_spec (now + proxyHandlerLifetime) now'); [lia|done].
Qed.

Lemma extend_expires_by now h :
  (alive now h).1 = true ->
  timer (extend now (alive now h).2) = GoTime.NewTimer now proxyHandlerLifetime.
Proof.
  intros Ha. rewrite alive_true_same by done.
  destruct h as [hd [w p c]].
  unfold alive, GoTime.tryRecv, GoTime.expire in Ha. simpl in Ha.
  unfold extend, GoTime.Reset, GoTime.expire, GoTime.NewTimer. simpl.
  destruct (p && (w <=? now))%bool; simpl in *; [discriminate|].
  by destruct c.
Qed.

(** ** Running the monad *)

Lemma run_bind {S A B} (m : M S A) (f : A -> M S B) s :
  (m ≫= f) s =
  let '(a, s1, l1) := m s in
  let '(b, s2, l2) := f a s1 in (b, s2, (l1 ++ l2)%list).
Proof. reflexivity. Qed.

Lemma run_get {S B} (f : S -> M S B) s : (get ≫= f) s = f s s.
Proof. rewrite run_bind. simpl. by destruct (f s s) as [[b s2] l2]. Qed.

Lemma run_put {S B} (s' : S) (f : unit -> M S B) s : (put s' ≫= f) s = f tt s'.
Proof. rewrite run_bind. simpl. by destruct (f tt s') as [[b s2] l2]. Qed.

Lemma run_log {S B} fmt a (f : unit -> M S B) s :
  (log_Printf fmt a ≫= f) s =
  let '(b, s2, l2) := f tt s in (b, s2, Printf fmt a :: l2).
Proof. rewrite run_bind. simpl. by destruct (f tt s) as [[b s2] l2]. Qed.

Lemma run_ret {S A} (a : A) (s : S) : ret a s = (a, s, []).
Proof. reflexivity. Qed.

Lemma run_on {S T A B} (x : T) (m : M T A) (f : A * T -> M S B) s :
  (on x m ≫= f) s =
  let '(a, x', l1) := m x in
  let '(b, s2, l2) := f (a, x') s in (b, s2, (l1 ++ l2)%list).
Proof. rewrite run_bind. unfold on. by destruct (m x) as [[a x'] l1]. Qed.

Ltac run_M :=
  repeat first
    [ rewrite run_get | rewrite run_put | rewrite run_log | rewrite run_ret
    | rewrite run_on ].

(** ** [Handler]: the scan of one bucket *)

Lemma Handler_range_cons now port ip ips ph :
  Handler_range now port (ip :: ips) ph =
  match ph !! port with
  | None => Handler_range now port ips ph
  | Some handlers =>
      match handlers !! ip with
      | None => Handler_range now port ips ph
      | Some h =>
          if (alive now h).1 then
            (Some (handler (alive now h).2),
             <[port := <[ip := (alive now h).2]> handlers]> ph, [])
          else
            let '(b, s2, l2) :=
              Handler_range now port ips (<[port := delete ip handlers]> ph) in
            (b, s2, Printf "[info] proxy handler to %s is dead" [ArgS ip] :: l2)
      end
  end.
Proof.
  cbn [Handler_range]. rewrite run_get.
  destruct (ph !! port) as [handlers|]; [|done].
  destruct (handlers !! ip) as [h|]; [|done].
  destruct (alive now h) as [[] h']; cbn; by run_M.
Qed.

Lemma Handler_range_spec now port ips : forall ph hs,
  ph !! port = Some hs ->
  exists res hs' lg,
    Handler_range now port ips ph = (res, <[port := hs']> ph, lg) /\
    (forall ip h, hs' !! ip = Some h -> hs !! ip = Some h) /\
    (forall ip h, hs !! ip = Some h -> (alive now h).1 = true -> hs' !! ip = Some h) /\
    match res with
    | Some hd =>
        exists ip h, ip ∈ ips /\ hs !! ip = Some h /\
                     (alive now h).1 = true /\ hd = handler h
    | None => forall ip, ip ∈ ips -> hs' !! ip = None
    end.
Proof.
  induction ips as [|ip ips IH]; intros ph hs Hph.
  - exists None, hs, []. rewrite insert_id by done. repeat split; auto.
    intros ip Hin. by apply elem_of_nil in Hin.
  - rewrite Handler_range_cons, Hph.
    destruct (hs !! ip) as [h|] eqn:Hip.
    + destruct (alive now h).1 eqn:Ha.
      * rewrite alive_true_same by done.
        exists (Some (handler h)), hs, []. rewrite (insert_id hs ip h) by done.
        repeat split; auto. exists ip, h. repeat split; auto. left.
      * destruct (IH (<[port := delete ip hs]> ph) (delete ip hs))
          as (res & hs' & lg & -> & Hsub & Hkeep & Hres).
        { apply lookup_insert_eq. }
        rewrite insert_insert_eq. eexists res, hs', _. split; [reflexivity|].
        split; [|split].
        -- intros ip' h' Hl. apply Hsub in Hl.
           apply lookup_delete_Some in Hl. tauto.
        -- intros ip' h' Hl Hal. apply Hkeep; [|done].
           apply lookup_delete_Some. split; [|done]. congruence.
        -- destruct res as [hd|].
           ++ destruct Hres as (ip' & h' & Hin & Hl & Hal & ->).
              apply lookup_delete_Some in Hl as [? Hl].
              exists ip', h'. repeat split; auto. by right.
           ++ intros ip' [Heq|Hin]%elem_of_cons; [subst ip'|by apply Hres].
              destruct (hs' !! ip) as [h'|] eqn:E; [|done].
              apply Hsub in E. by rewrite lookup_delete_eq in E.
    + destruct (IH ph hs Hph) as (res & hs' & lg & -> & Hsub & Hkeep & Hres).
      exists res, hs', lg. repeat split; auto.
      destruct res as [hd|].
      * destruct Hres as (ip' & h' & Hin & Hl & Hal & ->).
        exists ip', h'. repeat split; auto. by right.
      * intros ip' [Heq|Hin]%elem_of_cons; [subst ip'|by apply Hres].
        destruct (hs' !! ip) as [h'|] eqn:E; [|done].
        apply Hsub in E. congruence.
Qed.

Lemma elem_of_keys {V} (m : gmap string V) k : k ∈ keys m <-> is_Some (m !! k).
Proof.
  unfold keys. rewrite list_elem_of_fmap. split.
  - intros ([k' v] & -> & Hin). apply elem_of_map_to_list in Hin. eauto.
  - intros [v Hv]. exists (k, v). split; [done|]. by apply elem_of_map_to_list.
Qed.

Lemma elem_of_visit (ρ : range_order) l k : k ∈ ρ l <-> k ∈ l.
Proof. by rewrite (visit_perm ρ l). Qed.

(** What [Handler] returns and what it leaves in the bucket. *)
Lemma Handler_spec ρ now port ph :
  let hs := default ∅ (ph !! port) in
  exists res hs' lg,
    Handler ρ now port ph =
      (res, match ph !! port with Some _ => <[port := hs']> ph | None => ph end, lg) /\
    (forall ip h, hs' !! ip = Some h -> hs !! ip = Some h) /\
    (forall ip h, hs !! ip = Some h -> (alive now h).1 = true -> hs' !! ip = Some h) /\
    match res with
    | Some hd =>
        exists ip h, hs !! ip = Some h /\ (alive now h).1 = true /\ hd = handler h
    | None => hs' = ∅
    end.
Proof.
  intros hs. unfold Handler. rewrite run_get. subst hs.
  destruct (ph !! port) as [hs|] eqn:Hph; simpl.
  - destruct (size hs =? 0)%nat eqn:Hsz.
    + apply Nat.eqb_eq, map_size_empty_iff in Hsz. subst hs.
      exists None, ∅, []. rewrite insert_id by done. by repeat split.
    + destruct (Handler_range_spec now port (ρ (keys hs)) ph hs Hph)
        as (res & hs' & lg & -> & Hsub & Hkeep & Hres).
      exists res, hs', lg. repeat split; auto.
      destruct res as [hd|].
      * destruct Hres as (ip & h & _ & H1 & H2 & H3). by exists ip, h.
      * apply map_empty. intros ip.
        destruct (hs' !! ip) as [h|] eqn:E; [|done].
        rewrite <- E. apply Hres, elem_of_visit, elem_of_keys.
        apply Hsub in E. eauto.
  - exists None, ∅, []. by repeat split.
Qed.

(** ** [exists], [add] and the loop of [AddSubdomain] *)

Lemma exists_run now port ip ph :
  exists_ now port ip ph =
  match ph !! port with
  | None => (false, ph, [])
  | Some hs =>
      match hs !! ip with
      | None => (false, ph, [])
      | Some h =>
          if (alive now h).1 then
            (true, <[port := <[ip := extend now (alive now h).2]> hs]> ph,
             [Printf "[debug] proxy handler to %s extends lifetime" [ArgS ip]])
          else
            (false, <[port := delete ip hs]> ph,
             [Printf "[info] proxy handler to %s is dead" [ArgS ip]])
      end
  end.
Proof.
  unfold exists_. rewrite run_get.
  destruct (ph !! port) as [hs|]; [|done].
  destruct (hs !! ip) as [h|]; [|done].
  destruct (alive now h) as [[] h']; cbn; by run_M.
Qed.

Lemma add_run now port ip h ph :
  add now port ip h ph =
  (tt, <[port := <[ip := newProxyHandler now h]> (default ∅ (ph !! port))]> ph,
   [Printf "[info] new proxy handler to %s" [ArgS ip]]).
Proof. unfold add. by run_M. Qed.

Lemma slot_after_timer now ip tp hs :
  timer (slot_after now ip tp hs) = GoTime.NewTimer now proxyHandlerLifetime.
Proof.
  unfold slot_after. destruct (hs !! ip) as [h|]; [|done].
  destruct (alive now h).1 eqn:E; [|done]. by apply extend_expires_by.
Qed.

Lemma fresh_timer_alive now now' h :
  timer h = GoTime.NewTimer now proxyHandlerLifetime ->
  now' < now + proxyHandlerLifetime ->
  (alive now' h).1 = true.
Proof.
  destruct h as [hd t]. simpl. intros -> Hlt.
  unfold alive, GoTime.tryRecv, GoTime.expire, GoTime.NewTimer. simpl.
  destruct (Z.leb_spec (now + proxyHandlerLifetime) now'); [lia|done].
Qed.

Lemma fresh_timer_extend now h :
  timer h = GoTime.NewTimer now proxyHandlerLifetime ->
  extend now (alive now h).2 = h.
Proof.
  intros Ht. rewrite alive_true_same.
  2:{ eapply fresh_timer_alive; [done|]. pose proof lifetime_pos. lia. }
  destruct h as [hd t]. simpl in Ht. subst t.
  unfold extend, GoTime.Reset, GoTime.expire, GoTime.NewTimer. simpl.
  pose proof lifetime_pos.
  destruct (Z.leb_spec (now + proxyHandlerLifetime) now); [lia|done].
Qed.

Lemma slot_after_insert now ip tp hs :
  slot_after now ip tp (<[ip := slot_after now ip tp hs]> hs) = slot_after now ip tp hs.
Proof.
  set (s := slot_after now ip tp hs).
  unfold slot_after at 1. rewrite lookup_insert_eq.
  pose proof (slot_after_timer now ip tp hs) as Ht. fold s in Ht.
  rewrite (fresh_timer_alive now now s Ht) by (pose proof lifetime_pos; lia).
  by apply fresh_timer_extend.
Qed.

Lemma AddSubdomain_body_run now d ip tp v ph :
  AddSubdomain_body now d ip tp v ph =
  if negb (TargetPort v =? tp) then (tt, ph, [])
  else
    let hs := default ∅ (ph !! ListenPort v) in
    (tt, <[ListenPort v := <[ip := slot_after now ip (TargetPort v) hs]> hs]> ph,
     match hs !! ip with
     | Some h =>
         if (alive now h).1 then
           [Printf "[debug] proxy handler to %s extends lifetime" [ArgS ip]]
         else
           [Printf "[info] proxy handler to %s is dead" [ArgS ip];
            Printf "[info] new proxy handler to %s" [ArgS ip];
            Printf "[info] add subdomain: %s:%d -> %s:%d"
              [ArgS d; ArgD (ListenPort v); ArgS ip; ArgD tp]]
     | None =>
         [Printf "[info] new proxy handler to %s" [ArgS ip];
          Printf "[info] add subdomain: %s:%d -> %s:%d"
            [ArgS d; ArgD (ListenPort v); ArgS ip; ArgD tp]]
     end).
Proof.
  unfold AddSubdomain_body. destruct (negb _); [done|].
  rewrite run_bind, exists_run. unfold slot_after.
  destruct (ph !! ListenPort v) as [hs|] eqn:Hp; cbn.
  - destruct (hs !! ip) as [h|] eqn:Hip.
    + destruct (alive now h).1 eqn:Ha; cbn.
      * by run_M.
      * rewrite run_bind, add_run, lookup_insert_eq. cbn. run_M.
        by rewrite insert_insert_eq, insert_delete_eq.
    + rewrite run_bind, add_run, Hp. cbn. by run_M.
  - rewrite run_bind, add_run, Hp. cbn. by run_M.
Qed.

Lemma AddSubdomain_range_cons now d ip tp v vs ph :
  AddSubdomain_range now d ip tp (v :: vs) ph =
  let '(_, ph1, l1) := AddSubdomain_body now d ip tp v ph in
  let '(b, ph2, l2) := AddSubdomain_range now d ip tp vs ph1 in
  (b, ph2, (l1 ++ l2)%list).
Proof. reflexivity. Qed.

(** The bucket of every listen port after the loop of [AddSubdomain]. *)
Lemma AddSubdomain_range_lookup now d ip tp vs : forall ph p,
  state (AddSubdomain_range now d ip tp vs ph) !! p =
  if existsb (visits tp p) vs then
    let hs := default ∅ (ph !! p) in
    Some (<[ip := slot_after now ip tp hs]> hs)
  else ph !! p.
Proof.
  induction vs as [|v vs IH]; intros ph p; [done|].
  rewrite AddSubdomain_range_cons, AddSubdomain_body_run.
  unfold visits at 1. cbn [existsb].
  destruct (Z.eqb_spec (TargetPort v) tp) as [Htp|Htp]; cbn [negb andb orb].
  - specialize (IH (<[ListenPort v :=
        <[ip := slot_after now ip (TargetPort v) (default ∅ (ph !! ListenPort v))]>
          (default ∅ (ph !! ListenPort v))]> ph) p).
    destruct (AddSubdomain_range _ _ _ _ _ _) as [[u ph2] l2].
    unfold state in *. cbn [fst snd] in *. rewrite IH. clear IH. rewrite Htp.
    destruct (Z.eqb_spec (ListenPort v) p) as [<-|Hp]; cbn [orb].
    + rewrite lookup_insert_eq. cbn [default from_option]. unfold id.
      rewrite slot_after_insert, insert_insert_eq. by destruct (existsb _ _).
    + by rewrite lookup_insert_ne.
  - specialize (IH ph p).
    destruct (AddSubdomain_range _ _ _ _ _ _) as [[u ph2] l2].
    unfold state in *. cbn [fst snd] in *. by rewrite IH.
Qed.

Lemma AddSubdomain_range_no_target now d ip tp vs ph :
  Forall (fun v => TargetPort v <> tp) vs ->
  AddSubdomain_range now d ip tp vs ph = (tt, ph, []).
Proof.
  induction 1 as [|v vs Hv _ IH]; [done|].
  rewrite AddSubdomain_range_cons, AddSubdomain_body_run.
  destruct (Z.eqb_spec (TargetPort v) tp); [done|]. cbn [negb]. by rewrite IH.
Qed.

Lemma AddSubdomain_run now d ip tp r :
  AddSubdomain now d ip tp r =
  let '(_, ph', lg) :=
    AddSubdomain_range now d ip tp (HTTP (cfg_Listen (cfg r)))
      (default ∅ (domainMap r !! d)) in
  (tt, set_domainMap r (<[d := ph']> (domainMap r)), lg).
Proof.
  unfold AddSubdomain. rewrite run_get, run_on.
  destruct (AddSubdomain_range _ _ _ _ _ _) as [[u ph'] lg]. cbn.
  by rewrite app_nil_r.
Qed.

Lemma AddSubdomain_domainMap now d ip tp r :
  domainMap (state (AddSubdomain now d ip tp r)) =
  <[d := state (AddSubdomain_range now d ip tp (HTTP (cfg_Listen (cfg r)))
                  (default ∅ (domainMap r !! d)))]> (domainMap r).
Proof.
  rewrite AddSubdomain_run. by destruct (AddSubdomain_range _ _ _ _ _ _) as [[u ph'] lg].
Qed.

Lemma AddSubdomain_cfg now d ip tp r : cfg (state (AddSubdomain now d ip tp r)) = cfg r.
Proof.
  rewrite AddSubdomain_run. by destruct (AddSubdomain_range _ _ _ _ _ _) as [[u ph'] lg].
Qed.

(** ** [findHandler] *)

Lemma findHandler_range_Some m d names name ph :
  findHandler_range m d names = Some (name, ph) ->
  name ∈ names /\ m !! name = Some ph /\ (GoPath.Match name d).1 = true.
Proof.
  induction names as [|n names IH]; [done|]. cbn [findHandler_range].
  destruct (m !! n) as [ph'|] eqn:E.
  - destruct (GoPath.Match n d).1 eqn:Hm.
    + intros [= <- <-]. repeat split; auto. left.
    + intros H. apply IH in H as (? & ? & ?). repeat split; auto. by right.
  - intros H. apply IH in H as (? & ? & ?). repeat split; auto. by right.
Qed.

Lemma findHandler_range_None m d names :
  findHandler_range m d names = None ->
  forall name, name ∈ names -> is_Some (m !! name) -> (GoPath.Match name d).1 = false.
Proof.
  induction names as [|n names IH]; [by intros _ ? ?%elem_of_nil|].
  cbn [findHandler_range]. intros H name [->|Hin]%elem_of_cons Hs.
  - destruct Hs as [ph Hph]. rewrite Hph in H. by destruct (GoPath.Match n d).1.
  - apply IH; auto. destruct (m !! n); [|done]. by destruct (GoPath.Match n d).1.
Qed.

Lemma findHandler_proxyHandlers_Some ρ r d name ph :
  findHandler_proxyHandlers ρ r d = Some (name, ph) ->
  domainMap r !! name = Some ph /\
  (name = d \/ (domainMap r !! d = None /\ (GoPath.Match name d).1 = true)).
Proof.
  unfold findHandler_proxyHandlers. destruct (domainMap r !! d) as [ph'|] eqn:E.
  - intros [= <- <-]. auto.
  - intros (? & ? & ?)%findHandler_range_Some. auto.
Qed.

Lemma findHandler_proxyHandlers_None ρ r d :
  findHandler_proxyHandlers ρ r d = None ->
  forall name, is_Some (domainMap r !! name) -> (GoPath.Match name d).1 = false.
Proof.
  unfold findHandler_proxyHandlers. destruct (domainMap r !! d) as [ph'|] eqn:E; [done|].
  intros H name Hs. eapply findHandler_range_None; [done| |done].
  by apply elem_of_visit, elem_of_keys.
Qed.

Lemma findHandler_run ρ ρh now d p r :
  findHandler ρ ρh now d p r =
  let line := Printf "[debug] findHandler for %s:%d" [ArgS d; ArgD p] in
  match findHandler_proxyHandlers ρ r d with
  | None => (None, r, [line])
  | Some (name, ph) =>
      let '(res, ph', lg) := Handler ρh now p ph in
      (res, set_domainMap r (<[name := ph']> (domainMap r)), line :: lg)
  end.
Proof.
  unfold findHandler. rewrite run_log, run_get.
  destruct (findHandler_proxyHandlers ρ r d) as [[name ph]|]; [|done].
  rewrite run_on. destruct (Handler ρh now p ph) as [[res ph'] lg].
  run_M. cbn. by rewrite app_nil_r.
Qed.

(** ** The invariant of reachable tables *)

Lemma expires_by_mono T T' h : expires_by T h -> T <= T' -> expires_by T' h.
Proof. intros (? & ? & ?) ?. repeat split; auto. lia. Qed.

Lemma handlers_ok_mono T T' ph : handlers_ok T ph -> T <= T' -> handlers_ok T' ph.
Proof.
  intros H Hle port hs ip h Hp Hh. destruct (H port hs ip h Hp Hh).
  split; [|done]. by eapply expires_by_mono.
Qed.

Lemma table_ok_mono T T' r : table_ok T r -> T <= T' -> table_ok T' r.
Proof. intros H Hle d ph Hd. eapply handlers_ok_mono; eauto. Qed.

Lemma extend_handler now h : handler (extend now h) = handler h.
Proof. reflexivity. Qed.

Lemma slot_after_forwards now ip tp hs :
  (forall h, hs !! ip = Some h -> forwards_to (handler h) = ip) ->
  forwards_to (handler (slot_after now ip tp hs)) = ip.
Proof.
  intros H. unfold slot_after. destruct (hs !! ip) as [h|]; [|done].
  destruct (alive now h).1; [|done].
  rewrite extend_handler, alive_handler. auto.
Qed.

Lemma slot_after_expires now ip tp hs :
  expires_by (now + proxyHandlerLifetime) (slot_after now ip tp hs).
Proof.
  unfold expires_by. rewrite slot_after_timer. cbn. repeat split; auto. lia.
Qed.

Lemma handlers_ok_lookup T (ph : proxyHandlers) p :
  handlers_ok T ph ->
  forall ip h, default ∅ (ph !! p) !! ip = Some h ->
    expires_by T h /\ forwards_to (handler h) = ip.
Proof.
  intros H ip h. destruct (ph !! p) as [hs|] eqn:E; cbn; [|done]. apply (H p hs ip h E).
Qed.

Lemma handlers_ok_AddSubdomain_range T now d ip tp vs ph :
  handlers_ok T ph -> now + proxyHandlerLifetime <= T ->
  handlers_ok T (state (AddSubdomain_range now d ip tp vs ph)).
Proof.
  intros Hok Hle p hs' ip' h'. rewrite AddSubdomain_range_lookup.
  destruct (existsb _ _); [|by apply Hok].
  cbn. intros [= <-]. destruct (decide (ip = ip')) as [<-|Hne].
  - rewrite lookup_insert_eq. intros [= <-]. split.
    + eapply expires_by_mono; [apply slot_after_expires|done].
    + apply slot_after_forwards. intros h Hh.
      by apply (handlers_ok_lookup T ph p Hok).
  - rewrite lookup_insert_ne by done. by apply handlers_ok_lookup.
Qed.

Lemma handlers_ok_Handler T ρ now p ph :
  handlers_ok T ph -> handlers_ok T (state (Handler ρ now p ph)).
Proof.
  intros Hok. destruct (Handler_spec ρ now p ph) as (res & hs' & lg & -> & Hsub & _).
  unfold state. cbn [fst snd]. destruct (ph !! p) as [hs|] eqn:E; [|done].
  cbn in Hsub. intros q hs1 ip h. destruct (decide (p = q)) as [<-|Hne].
  - rewrite lookup_insert_eq. intros [= <-] Hh. apply Hsub in Hh. by eapply Hok.
  - rewrite lookup_insert_ne by done. apply Hok.
Qed.

Lemma table_ok_New T c : table_ok T (NewReverseProxy c).
Proof. intros d ph. cbn. by rewrite lookup_empty. Qed.

Lemma table_ok_AddSubdomain T now d ip tp r :
  table_ok T r -> now + proxyHandlerLifetime <= T ->
  table_ok T (state (AddSubdomain now d ip tp r)).
Proof.
  intros Hok Hle d' ph'. rewrite AddSubdomain_domainMap.
  destruct (decide (d = d')) as [<-|Hne].
  - rewrite lookup_insert_eq. intros [= <-].
    apply handlers_ok_AddSubdomain_range; [|done].
    destruct (domainMap r !! d) as [ph|] eqn:E; cbn; [by eapply Hok|].
    intros p hs ip' h. by rewrite lookup_empty.
  - rewrite lookup_insert_ne by done. apply Hok.
Qed.

Lemma RemoveSubdomain_run d r :
  RemoveSubdomain d r =
  (tt, set_domainMap r (delete d (domainMap r)),
   [Printf "[info] removing subdomain:" [ArgS d]]).
Proof. unfold RemoveSubdomain. by run_M. Qed.

Lemma table_ok_RemoveSubdomain T d r :
  table_ok T r -> table_ok T (state (RemoveSubdomain d r)).
Proof.
  intros Hok d' ph'. rewrite RemoveSubdomain_run. unfold state. cbn.
  intros [_ H]%lookup_delete_Some. by eapply Hok.
Qed.

Lemma findHandler_domainMap ρ ρh now d p r :
  domainMap (state (findHandler ρ ρh now d p r)) =
  match findHandler_proxyHandlers ρ r d with
  | None => domainMap r
  | Some (name, ph) => <[name := state (Handler ρh now p ph)]> (domainMap r)
  end.
Proof.
  rewrite findHandler_run. destruct (findHandler_proxyHandlers ρ r d) as [[name ph]|]; [|done].
  by destruct (Handler ρh now p ph) as [[res ph'] lg].
Qed.

Lemma findHandler_cfg ρ ρh now d p r : cfg (state (findHandler ρ ρh now d p r)) = cfg r.
Proof.
  rewrite findHandler_run. destruct (findHandler_proxyHandlers ρ r d) as [[name ph]|]; [|done].
  by destruct (Handler ρh now p ph) as [[res ph'] lg].
Qed.

Lemma table_ok_findHandler T ρ ρh now d p r :
  table_ok T r -> table_ok T (state (findHandler ρ ρh now d p r)).
Proof.
  intros Hok d' ph'. rewrite findHandler_domainMap.
  destruct (findHandler_proxyHandlers ρ r d) as [[name ph]|] eqn:E; [|apply Hok].
  apply findHandler_proxyHandlers_Some in E as [E _].
  destruct (decide (name = d')) as [<-|Hne].
  - rewrite lookup_insert_eq. intros [= <-]. apply handlers_ok_Handler. by eapply Hok.
  - rewrite lookup_insert_ne by done. apply Hok.
Qed.

Lemma reachable_ok c t r :
  reachable c t r -> cfg r = c /\ table_ok (t + proxyHandlerLifetime) r.
Proof.
  induction 1 as [t|t t' r _ [IH1 IH2] Hle|t r d a tp _ [IH1 IH2]
                 |t r d _ [IH1 IH2]|t r ρ ρh d p _ [IH1 IH2]].
  - split; [done|apply table_ok_New].
  - split; [done|]. eapply table_ok_mono; [done|lia].
  - split; [by rewrite AddSubdomain_cfg|]. apply table_ok_AddSubdomain; [done|lia].
  - split; [done|]. by apply table_ok_RemoveSubdomain.
  - split; [by rewrite findHandler_cfg|]. by apply table_ok_findHandler.
Qed.
(** ** Calls that keep the keys of the table *)

Lemma Exists_run ρ d r :
  Exists ρ d r =
  (match domainMap r !! d with
   | Some _ => true
   | None => Exists_range d (ρ (keys (domainMap r)))
   end, r, []).
Proof. unfold Exists. rewrite run_get. by destruct (domainMap r !! d). Qed.

Lemma fold_left_append (l : list string) : forall acc,
  fold_left (fun ds name => (ds ++ [name])%list) l acc = (acc ++ l)%list.
Proof.
  induction l as [|x l IH]; intros acc; cbn; [by rewrite app_nil_r|].
  by rewrite IH, <- app_assoc.
Qed.

Lemma Subdomains_run ρ r :
  Subdomains ρ r = (ρ (keys (domainMap r)), r, []).
Proof. unfold Subdomains. by rewrite run_get, run_ret, fold_left_append. Qed.

Lemma Exists_range_true d names :
  Exists_range d names = true <-> exists name, name ∈ names /\ (GoPath.Match name d).1 = true.
Proof.
  induction names as [|n names IH]; cbn.
  - split; [done|]. by intros (? & ?%elem_of_nil & _).
  - destruct (GoPath.Match n d).1 eqn:E.
    + split; [|done]. intros _. exists n. split; [left|done].
    + rewrite IH. split.
      * intros (name & ? & ?). exists name. split; [by right|done].
      * intros (name & [->|?]%elem_of_cons & ?); [congruence|eauto].
Qed.

Lemma Exists_true ρ d r :
  result (Exists ρ d r) = true <->
  is_Some (domainMap r !! d) \/
  exists name, is_Some (domainMap r !! name) /\ (GoPath.Match name d).1 = true.
Proof.
  rewrite Exists_run. unfold result. cbn.
  destruct (domainMap r !! d) as [ph|] eqn:E.
  - split; eauto.
  - rewrite Exists_range_true. split.
    + intros (name & Hin%elem_of_visit%elem_of_keys & ?). eauto.
    + intros [[? [=]]|(name & Hin & ?)]. exists name.
      split; [|done]. by apply elem_of_visit, elem_of_keys.
Qed.

Lemma exec_keeps_keys c r name :
  is_Remove c = false ->
  is_Some (domainMap r !! name) -> is_Some (domainMap (exec c r) !! name).
Proof.
  destruct c as [now d a tp|d|ρ ρh now d p|ρ d|ρ]; cbn [exec is_Remove]; intros Hc Hs;
    try discriminate.
  - rewrite AddSubdomain_domainMap. rewrite lookup_insert. case_decide; eauto.
  - rewrite findHandler_domainMap.
    destruct (findHandler_proxyHandlers ρ r d) as [[n ph]|]; [|done].
    rewrite lookup_insert. case_decide; eauto.
  - by rewrite Exists_run.
  - by rewrite Subdomains_run.
Qed.

Lemma run_keeps_keys cs : forall r name,
  Forall (fun c => is_Remove c = false) cs ->
  is_Some (domainMap r !! name) -> is_Some (domainMap (run cs r) !! name).
Proof.
  induction cs as [|c cs IH]; intros r name Hcs Hs; [done|].
  apply Forall_cons in Hcs as [Hc Hcs]. cbn. apply IH; [done|].
  by apply exec_keeps_keys.
Qed.

(** C6: a registered domain, matched exactly or through a registered
    pattern, exists whatever the state of its handlers (the table [r] is
    arbitrary: expired handlers, empty buckets or no bucket at all, and
    [Exists] does not read the clock); [Exists] leaves the table as it was
    and writes no log line; and the answer stays [true] after any calls
    among which there is no [Remove]. *)
Theorem Exists_registered_whatever_liveness ρ d r :
  is_Some (domainMap r !! d) \/
  (exists name, is_Some (domainMap r !! name) /\ (GoPath.Match name d).1 = true) ->
  Exists ρ d r = (true, r, []) /\
  forall cs ρ', Forall (fun c => is_Remove c = false) cs ->
    result (Exists ρ' d (run cs r)) = true.
Proof.
  intros H. split.
  - pose proof (proj2 (Exists_true ρ d r) H) as Ht.
    rewrite Exists_run in *. unfold result in Ht. cbn in Ht. by rewrite Ht.
  - intros cs ρ' Hcs. apply Exists_true.
    destruct H as [H|(name & H & Hm)]; [left|right; exists name; split; [|done]];
      by apply run_keeps_keys.
Qed.

(** C5: when the domain is an exact key, [findHandler] takes the map bound
    to that key whatever the visiting order (the range over the patterns is
    not run), its answer is that of [Handler] on this map, only the entry
    of the exact key is written back, every other entry of the table is
    left as it was, and [Exists] answers [true] without a scan. *)
Theorem exact_key_before_patterns ρ ρh now d p r ph :
  domainMap r !! d = Some ph ->
  findHandler_proxyHandlers ρ r d = Some (d, ph) /\
  result (findHandler ρ ρh now d p r) = result (Handler ρh now p ph) /\
  domainMap (state (findHandler ρ ρh now d p r)) =
    <[d := state (Handler ρh now p ph)]> (domainMap r) /\
  (forall name, name <> d ->
     domainMap (state (findHandler ρ ρh now d p r)) !! name = domainMap r !! name) /\
  Exists ρ d r = (true, r, []).
Proof.
  intros Hd.
  assert (Hf : findHandler_proxyHandlers ρ r d = Some (d, ph)).
  { unfold findHandler_proxyHandlers. by rewrite Hd. }
  split; [done|]. rewrite findHandler_domainMap, findHandler_run, Hf.
  split; [by destruct (Handler ρh now p ph) as [[res ph'] lg]|].
  split; [done|]. split.
  - intros name Hne. by rewrite lookup_insert_ne.
  - by rewrite Exists_run, Hd.
Qed.

(** ** [AddSubdomain] and the configured ports *)

Lemma visits_none tp p vs :
  p ∉ listen_ports vs -> existsb (visits tp p) vs = false.
Proof.
  induction vs as [|v vs IH]; [done|]. cbn. intros Hn.
  apply not_elem_of_cons in Hn as [Hne Hn]. rewrite IH by done.
  unfold visits. destruct (Z.eqb_spec (ListenPort v) p); [congruence|].
  by rewrite andb_false_r.
Qed.

Lemma visits_some tp p vs :
  mkPortMap p tp ∈ vs -> existsb (visits tp p) vs = true.
Proof.
  intros Hin. apply existsb_exists. exists (mkPortMap p tp).
  split; [by apply list_elem_of_In|]. unfold visits. cbn. by rewrite !Z.eqb_refl.
Qed.

Lemma no_target_Forall tp vs :
  tp ∉ (TargetPort <$> vs) -> Forall (fun v => TargetPort v <> tp) vs.
Proof.
  intros Hn. apply Forall_forall. intros v Hv <-. apply Hn.
  apply list_elem_of_fmap. eauto.
Qed.

Lemma AddSubdomain_no_target_run now d a tp r :
  tp ∉ (TargetPort <$> HTTP (cfg_Listen (cfg r))) ->
  AddSubdomain now d a tp r =
    (tt, set_domainMap r (<[d := default ∅ (domainMap r !! d)]> (domainMap r)), []).
Proof.
  intros Hn. rewrite AddSubdomain_run.
  by rewrite AddSubdomain_range_no_target by by apply no_target_Forall.
Qed.

(** C8 (as amended): when no HTTP port map has the target port, the call
    returns (it has no error result), leaves every bucket of the domain
    as it was, so that no port bucket is created, and writes no log line
    at all. *)
Theorem AddSubdomain_no_listen_port_silent now d a tp r :
  tp ∉ (TargetPort <$> HTTP (cfg_Listen (cfg r))) ->
  result (AddSubdomain now d a tp r) = tt /\
  (forall p, domainMap (state (AddSubdomain now d a tp r)) !! d ≫= (.!! p) =
             domainMap r !! d ≫= (.!! p)) /\
  logged (AddSubdomain now d a tp r) = [].
Proof.
  intros Hn. rewrite AddSubdomain_no_target_run by done.
  unfold result, state, logged. cbn. split; [done|]. split; [|done].
  intros p. rewrite lookup_insert_eq. destruct (domainMap r !! d); cbn; [done|].
  by rewrite lookup_empty.
Qed.

Lemma empty_entry r d :
  domainMap r !! d = Some ∅ ->
  (forall ρ, result (Exists ρ d r) = true) /\
  (forall ρ, d ∈ result (Subdomains ρ r)) /\
  (forall ρ ρh t p, result (findHandler ρ ρh t d p r) = None).
Proof.
  intros Hl. split; [|split].
  - intros ρ. apply Exists_true. left. by rewrite Hl.
  - intros ρ. rewrite Subdomains_run. unfold result. cbn [fst].
    apply elem_of_visit, elem_of_keys. by rewrite Hl.
  - intros ρ ρh t p. rewrite findHandler_run.
    unfold findHandler_proxyHandlers. rewrite Hl.
    unfold Handler. by rewrite run_get, lookup_empty.
Qed.

(** C9: on a domain that is not registered, with a target port that no
    HTTP port map has, [AddSubdomain] binds the domain to an empty map of
    buckets; afterwards [Exists] answers [true], [Subdomains] lists the
    domain, and [findHandler] finds nothing on any port at any time. *)
Theorem AddSubdomain_unmatched_port_registers_domain now d a tp r :
  domainMap r !! d = None ->
  tp ∉ (TargetPort <$> HTTP (cfg_Listen (cfg r))) ->
  let r' := state (AddSubdomain now d a tp r) in
  domainMap r' !! d = Some ∅ /\
  (forall ρ, result (Exists ρ d r') = true) /\
  (forall ρ, d ∈ result (Subdomains ρ r')) /\
  (forall ρ ρh t p, result (findHandler ρ ρh t d p r') = None).
Proof.
  intros Hd Hn r'. subst r'.
  rewrite (AddSubdomain_no_target_run now d a tp r Hn), Hd.
  unfold state. cbn [fst snd default from_option].
  assert (Hl : domainMap (set_domainMap r (<[d:=∅]> (domainMap r))) !! d = Some ∅)
    by apply lookup_insert_eq.
  split; [done|]. by apply empty_entry.
Qed.

(** C10: a listen port that is not a listen port of the HTTP port maps
    (one that only the HTTPS port maps have, or none) keeps the bucket it
    had under the domain, or keeps having none; the other domains keep
    their maps; and the outcome of the call does not depend on the HTTPS
    port maps at all. *)
Theorem AddSubdomain_only_HTTP_listen_ports now d a tp r p :
  p ∉ listen_ports (HTTP (cfg_Listen (cfg r))) ->
  (domainMap (state (AddSubdomain now d a tp r)) !! d ≫= (.!! p)) =
    (domainMap r !! d ≫= (.!! p)) /\
  (forall d', d' <> d ->
     domainMap (state (AddSubdomain now d a tp r)) !! d' = domainMap r !! d') /\
  (forall https,
     domainMap (state (AddSubdomain now d a tp (set_HTTPS r https))) =
       domainMap (state (AddSubdomain now d a tp r)) /\
     logged (AddSubdomain now d a tp (set_HTTPS r https)) =
       logged (AddSubdomain now d a tp r)).
Proof.
  intros Hp. split; [|split].
  - rewrite AddSubdomain_domainMap, lookup_insert_eq. cbn.
    rewrite AddSubdomain_range_lookup, visits_none by done.
    destruct (domainMap r !! d); cbn; [done|]. by rewrite lookup_empty.
  - intros d' Hne. by rewrite AddSubdomain_domainMap, lookup_insert_ne.
  - intros https. rewrite !AddSubdomain_run. cbn.
    by destruct (AddSubdomain_range _ _ _ _ _ _) as [[u ph'] lg].
Qed.

(** ** Lookup after [AddSubdomain] *)

Lemma PortMap_elem_cfg c t r L tp :
  reachable c t r -> mkPortMap L tp ∈ HTTP (cfg_Listen c) ->
  existsb (visits tp L) (HTTP (cfg_Listen (cfg r))) = true.
Proof.
  intros [-> _]%reachable_ok Hin. by apply visits_some.
Qed.

Lemma bucket_after_AddSubdomain now d a tp r L :
  existsb (visits tp L) (HTTP (cfg_Listen (cfg r))) = true ->
  bucket (state (AddSubdomain now d a tp r)) d L =
  <[a := slot_after now a tp (bucket r d L)]> (bucket r d L).
Proof.
  intros Hv. unfold bucket. rewrite AddSubdomain_domainMap, lookup_insert_eq. cbn.
  rewrite AddSubdomain_range_lookup, Hv. cbn.
  destruct (domainMap r !! d) as [ph|]; cbn; [done|]. by rewrite lookup_empty.
Qed.

(** The answer of [findHandler] on an exact key, read on the bucket. *)
Lemma findHandler_exact ρ ρh now d p r :
  is_Some (domainMap r !! d) ->
  let out := findHandler ρ ρh now d p r in
  (forall ip h, bucket (state out) d p !! ip = Some h -> bucket r d p !! ip = Some h) /\
  (forall ip h, bucket r d p !! ip = Some h -> (alive now h).1 = true ->
                bucket (state out) d p !! ip = Some h) /\
  match result out with
  | Some hd =>
      exists ip h, bucket r d p !! ip = Some h /\ (alive now h).1 = true /\
                   hd = handler h
  | None => bucket (state out) d p = ∅
  end.
Proof.
  intros [ph Hd] out. subst out. unfold bucket.
  rewrite findHandler_domainMap, findHandler_run.
  unfold findHandler_proxyHandlers. rewrite Hd. rewrite lookup_insert_eq. cbn.
  destruct (Handler_spec ρh now p ph) as (res & hs' & lg & -> & Hsub & Hkeep & Hres).
  unfold state, result. cbn [fst snd].
  destruct (ph !! p) as [hs|] eqn:E; cbn in *.
  - rewrite lookup_insert_eq. cbn. auto.
  - rewrite E. cbn. repeat split; auto. destruct res as [hd|]; [|done].
    destruct Hres as (ip & h & Hl & _). by rewrite lookup_empty in Hl.
Qed.

Lemma bucket_forwards T r d p ip h :
  table_ok T r -> bucket r d p !! ip = Some h -> forwards_to (handler h) = ip.
Proof.
  intros Hok. unfold bucket. destruct (domainMap r !! d) as [ph|] eqn:E; cbn; [|done].
  intros Hl. by eapply (handlers_ok_lookup T ph p (Hok d ph E)).
Qed.

Lemma lookup_after_AddSubdomain c t r ρ ρh d a tp L t0 t1 :
  reachable c t r -> t <= t0 ->
  mkPortMap L tp ∈ HTTP (cfg_Listen c) ->
  t0 <= t1 < t0 + proxyHandlerLifetime ->
  let r1 := state (AddSubdomain t0 d a tp r) in
  exists ip hd,
    result (findHandler ρ ρh t1 d L r1) = Some (handler hd) /\
    bucket r1 d L !! ip = Some hd /\ (alive t1 hd).1 = true /\
    forwards_to (handler hd) = ip.
Proof.
  intros Hr Hle Hin Ht r1.
  assert (Hok : table_ok (t0 + proxyHandlerLifetime) r1).
  { apply table_ok_AddSubdomain; [|lia].
    eapply table_ok_mono; [by eapply reachable_ok|lia]. }
  assert (Hd : is_Some (domainMap r1 !! d)).
  { subst r1. rewrite AddSubdomain_domainMap, lookup_insert_eq. eauto. }
  assert (Ha : exists s, bucket r1 d L !! a = Some s /\ (alive t1 s).1 = true).
  { subst r1. rewrite bucket_after_AddSubdomain by by eapply PortMap_elem_cfg.
    rewrite lookup_insert_eq. eexists; split; [done|].
    eapply fresh_timer_alive; [apply slot_after_timer|lia]. }
  destruct (findHandler_exact ρ ρh t1 d L r1 Hd) as (Hsub & Hkeep & Hres).
  destruct (result (findHandler ρ ρh t1 d L r1)) as [h|].
  - destruct Hres as (ip & hd & Hl & Hal & ->). exists ip, hd.
    repeat split; auto. by eapply bucket_forwards.
  - destruct Ha as (s & Hs & Hal). apply Hkeep in Hs; [|done].
    by rewrite Hres, lookup_empty in Hs.
Qed.

(** C1 (as amended): after [AddSubdomain] at [t0] with a target port that
    an HTTP port map binds to the listen port [L], a [findHandler] on
    [(domain, L)] before [t0 + 30s] finds a handler; this handler is the one
    of a live entry of the bucket and forwards to the address the entry is
    keyed by; the entry of [address] is itself alive, and the handler
    forwards to [address] when no other entry of the bucket is alive. *)
Theorem add_then_lookup c t r ρ ρh d a tp L t0 t1 :
  reachable c t r -> t <= t0 ->
  mkPortMap L tp ∈ HTTP (cfg_Listen c) ->
  t0 <= t1 < t0 + proxyHandlerLifetime ->
  let r1 := state (AddSubdomain t0 d a tp r) in
  exists h,
    result (findHandler ρ ρh t1 d L r1) = Some h /\
    (exists ip hd, bucket r1 d L !! ip = Some hd /\ (alive t1 hd).1 = true /\
                   h = handler hd /\ forwards_to h = ip) /\
    (exists hd, bucket r1 d L !! a = Some hd /\ (alive t1 hd).1 = true /\
                forwards_to (handler hd) = a) /\
    ((forall ip hd, bucket r1 d L !! ip = Some hd -> (alive t1 hd).1 = true -> ip = a) ->
     forwards_to h = a).
Proof.
  intros Hr Hle Hin Ht r1.
  destruct (lookup_after_AddSubdomain c t r ρ ρh d a tp L t0 t1 Hr Hle Hin Ht)
    as (ip & hd & Hres & Hl & Hal & Hfw). fold r1 in Hres, Hl.
  exists (handler hd). split; [done|]. split; [by exists ip, hd|]. split.
  - exists (slot_after t0 a tp (bucket r d L)).
    assert (Hb : bucket r1 d L !! a = Some (slot_after t0 a tp (bucket r d L))).
    { subst r1. rewrite bucket_after_AddSubdomain by by eapply PortMap_elem_cfg.
      apply lookup_insert_eq. }
    split; [done|]. split.
    + eapply fresh_timer_alive; [apply slot_after_timer|lia].
    + eapply (bucket_forwards (t0 + proxyHandlerLifetime) r1); [|done].
      apply table_ok_AddSubdomain; [|lia].
      eapply table_ok_mono; [by eapply reachable_ok|lia].
  - intros Honly. rewrite Hfw. by eapply Honly.
Qed.

(** ** Expiry *)

Lemma table_ok_exec T c r :
  is_Add c = false -> table_ok T r -> table_ok T (exec c r).
Proof.
  destruct c as [now d a tp|d|ρ ρh now d p|ρ d|ρ]; cbn [exec is_Add]; intros Hc Hok;
    try discriminate.
  - by apply table_ok_RemoveSubdomain.
  - by apply table_ok_findHandler.
  - by rewrite Exists_run.
  - by rewrite Subdomains_run.
Qed.

Lemma table_ok_run T cs : forall r,
  Forall (fun c => is_Add c = false) cs -> table_ok T r -> table_ok T (run cs r).
Proof.
  induction cs as [|c cs IH]; intros r Hcs Hok; [done|].
  apply Forall_cons in Hcs as [Hc Hcs]. cbn. apply IH; [done|].
  by apply table_ok_exec.
Qed.

Lemma findHandler_all_expired T ρ ρh now d p r :
  table_ok T r -> T <= now ->
  result (findHandler ρ ρh now d p r) = None /\
  bucket (state (findHandler ρ ρh now d p r)) d p = ∅ /\
  (forall name ph, findHandler_proxyHandlers ρ r d = Some (name, ph) ->
     bucket (state (findHandler ρ ρh now d p r)) name p = ∅).
Proof.
  intros Hok Hle. unfold bucket.
  rewrite findHandler_domainMap, findHandler_run.
  destruct (findHandler_proxyHandlers ρ r d) as [[name ph]|] eqn:E.
  - apply findHandler_proxyHandlers_Some in E as [Hn Hwhy].
    destruct (Handler_spec ρh now p ph) as (res & hs' & lg & -> & Hsub & Hkeep & Hres).
    unfold result, state. cbn [fst snd].
    assert (res = None) as ->.
    { destruct res as [hd|]; [|done]. destruct Hres as (ip & h & Hl & Hal & _).
      destruct (handlers_ok_lookup T ph p (Hok name ph Hn) ip h Hl) as [He _].
      by rewrite (expired_not_alive T now h He Hle) in Hal. }
    split; [done|]. subst hs'.
    assert (Hb : default ∅
              (<[name := match ph !! p with
                         | Some _ => <[p:=∅]> ph
                         | None => ph
                         end]> (domainMap r) !! name ≫= (.!! p)) = ∅).
    { rewrite lookup_insert_eq. cbn. destruct (ph !! p) as [hs|] eqn:Ep.
      - by rewrite lookup_insert_eq.
      - by rewrite Ep. }
    split; [|by intros name' ph' [= <- <-]].
    destruct Hwhy as [->|[Hnone _]]; [done|].
    destruct (decide (name = d)) as [->|Hne]; [congruence|].
    by rewrite lookup_insert_ne, Hnone.
  - split; [done|]. split; [|done]. unfold findHandler_proxyHandlers in E.
    by destruct (domainMap r !! d).
Qed.

(** C2: after [AddSubdomain] at [t0], and whatever calls follow among
    which there is no [AddSubdomain] (nothing else renews a handler),
    every [findHandler] on the domain at [t0 + 30s] or later finds
    nothing, on every port and in every visiting order, and leaves the
    bucket it scanned, under the key it resolved the domain to, without
    any handler: each one was expired, was visited, and was deleted. *)
Theorem lookup_after_lifetime_finds_nothing c t r d a tp t0 cs ρ ρh t1 p :
  reachable c t r -> t <= t0 ->
  Forall (fun c => is_Add c = false) cs ->
  t0 + proxyHandlerLifetime <= t1 ->
  let r1 := run cs (state (AddSubdomain t0 d a tp r)) in
  result (findHandler ρ ρh t1 d p r1) = None /\
  bucket (state (findHandler ρ ρh t1 d p r1)) d p = ∅ /\
  (forall name ph, findHandler_proxyHandlers ρ r1 d = Some (name, ph) ->
     bucket (state (findHandler ρ ρh t1 d p r1)) name p = ∅).
Proof.
  intros Hr Hle Hcs Ht r1. apply (findHandler_all_expired (t0 + proxyHandlerLifetime)); [|done].
  apply table_ok_run; [done|]. apply table_ok_AddSubdomain; [|lia].
  eapply table_ok_mono; [by eapply reachable_ok|lia].
Qed.

(** ** One handler per address *)

Lemma slot_after_alive now a tp hs h :
  hs !! a = Some h -> (alive now h).1 = true -> slot_after now a tp hs = extend now h.
Proof.
  intros Hl Hal. unfold slot_after. by rewrite Hl, Hal, alive_true_same.
Qed.

(** C7: in a reachable table, the handlers of a bucket forward to
    pairwise different addresses; and an [AddSubdomain] for an address
    whose handler in the bucket of a listen port bound to the target port
    is alive puts no second entry: the bucket keeps its size, the entry
    keeps its handler, and its timer is reset to expire 30s from now. *)
Theorem one_handler_per_address c t r :
  reachable c t r ->
  (forall d p,
     NoDup ((fun kv => forwards_to (handler kv.2)) <$> map_to_list (bucket r d p))) /\
  (forall now d a tp L h,
     t <= now ->
     mkPortMap L tp ∈ HTTP (cfg_Listen c) ->
     bucket r d L !! a = Some h -> (alive now h).1 = true ->
     let r' := state (AddSubdomain now d a tp r) in
     bucket r' d L = <[a := extend now h]> (bucket r d L) /\
     size (bucket r' d L) = size (bucket r d L) /\
     handler (extend now h) = handler h /\
     timer (extend now h) = GoTime.NewTimer now proxyHandlerLifetime).
Proof.
  intros Hr. pose proof (reachable_ok c t r Hr) as [Hc Hok]. split.
  - intros d p.
    rewrite (list_fmap_ext _ fst (map_to_list (bucket r d p)) ).
    + apply NoDup_fst_map_to_list.
    + intros i [ip h] Hl. cbn.
      apply list_elem_of_lookup_2, elem_of_map_to_list in Hl.
      by eapply bucket_forwards.
  - intros now d a tp L h Hle Hin Hl Hal r'. subst r'.
    rewrite bucket_after_AddSubdomain by by eapply PortMap_elem_cfg.
    rewrite (slot_after_alive now a tp _ h Hl Hal).
    split; [done|]. split; [|split; [done|]].
    + rewrite map_size_insert_Some; [done|]. by rewrite Hl.
    + rewrite <- (alive_true_same now h Hal) at 1. by apply extend_expires_by.
Qed.

(** ** Case folding *)

Lemma toLowerByte_idem c :
  GoStrings.toLowerByte (GoStrings.toLowerByte c) = GoStrings.toLowerByte c.
Proof. destruct c as [[] [] [] [] [] [] [] []]; reflexivity. Qed.

Lemma ToLower_idem s : GoStrings.ToLower (GoStrings.ToLower s) = GoStrings.ToLower s.
Proof. induction s as [|c s IH]; cbn; [done|]. by rewrite toLowerByte_idem, IH. Qed.

Lemma ServeHTTPWithPort_run ρ ρh now host p r :
  let subdomain := GoStrings.ToLower (GoStrings.SplitFirst host ".") in
  result (ServeHTTPWithPort ρ ρh now host p r) =
    match result (findHandler ρ ρh now subdomain p r) with
    | Some h => ServeHTTP h
    | None => NotFound
    end.
Proof.
  intros subdomain. unfold ServeHTTPWithPort. fold subdomain. rewrite run_bind.
  destruct (findHandler ρ ρh now subdomain p r) as [[[h|] r'] lg];
    run_M; reflexivity.
Qed.

(** C3 (as amended): [AddSubdomain] binds the domain as it is written, no
    case folding; the dispatcher queries the lower-cased first label of the
    host.  So a request whose first label lower-cases to the registered key
    is served by a live handler of the key's bucket, whatever the case of
    the letters of the request; and a key that is not in lower case is
    never the key the dispatcher asks for. *)
Theorem keys_as_written_requests_lowercased c t r ρ ρh d a tp L t0 t1 :
  reachable c t r -> t <= t0 ->
  mkPortMap L tp ∈ HTTP (cfg_Listen c) ->
  t0 <= t1 < t0 + proxyHandlerLifetime ->
  let r1 := state (AddSubdomain t0 d a tp r) in
  dom (domainMap r1) = {[d]} ∪ dom (domainMap r) /\
  (forall host, GoStrings.ToLower (GoStrings.SplitFirst host ".") = d ->
     exists ip hd,
       result (ServeHTTPWithPort ρ ρh t1 host L r1) = ServeHTTP (handler hd) /\
       bucket r1 d L !! ip = Some hd /\ (alive t1 hd).1 = true) /\
  (GoStrings.ToLower d <> d ->
   forall host, GoStrings.ToLower (GoStrings.SplitFirst host ".") <> d).
Proof.
  intros Hr Hle Hin Ht r1. split; [|split].
  - subst r1. by rewrite AddSubdomain_domainMap, dom_insert_L.
  - intros host Hhost. subst r1. rewrite ServeHTTPWithPort_run, Hhost.
    destruct (lookup_after_AddSubdomain c t r ρ ρh d a tp L t0 t1 Hr Hle Hin Ht)
      as (ip & hd & -> & Hl & Hal & _).
    by exists ip, hd.
  - intros Hne host <-. apply Hne. apply ToLower_idem.
Qed.

(** ** A trailing wildcard *)

Module TrailingStar.
Import GoPath.

Lemma literalByte_inv c :
  literalByte c = true ->
  Ascii.eqb c "*" = false /\ Ascii.eqb c "?" = false /\
  Ascii.eqb c "[" = false /\ Ascii.eqb c "\" = false.
Proof.
  unfold literalByte. rewrite negb_true_iff, !orb_false_iff. tauto.
Qed.

Lemma scanLen_cons inrange c p :
  scanLen inrange false (String c p) =
  if Ascii.eqb c "\" then
    match p with
    | EmptyString => 1%nat
    | _ => S (scanLen inrange true p)
    end
  else if Ascii.eqb c "[" then S (scanLen true false p)
  else if Ascii.eqb c "]" then S (scanLen false false p)
  else if Ascii.eqb c "*" then
    if inrange then S (scanLen inrange false p) else O
  else S (scanLen inrange false p).
Proof. reflexivity. Qed.

Lemma scanLen_literal lit : 
  literal lit = true ->
  scanLen false false (lit ++ "*") = String.length lit.
Proof.
  induction lit as [|c lit IH]; [done|]. cbn [literal].
  intros [Hc Hl]%andb_true_iff. apply literalByte_inv in Hc as (H1 & H2 & H3 & H4).
  change (String c lit ++ "*") with (String c (lit ++ "*")).
  rewrite scanLen_cons, H4, H3, H1, IH by done. cbn.
  by destruct (Ascii.eqb c "]").
Qed.

Lemma substring_prefix s1 s2 : substring 0 (String.length s1) (s1 ++ s2) = s1.
Proof. induction s1 as [|c s1 IH]; simpl; [by destruct s2|]. by rewrite IH. Qed.

Lemma substring_suffix s1 s2 n :
  substring (String.length s1) n (s1 ++ s2) = substring 0 n s2.
Proof. induction s1 as [|c s1 IH]; simpl; [done|]. by rewrite IH. Qed.

Lemma length_append s1 s2 :
  String.length (s1 ++ s2) = (String.length s1 + String.length s2)%nat.
Proof. induction s1 as [|c s1 IH]; simpl; [done|]. by rewrite IH. Qed.

Lemma scanChunk_literal_star c lit :
  literal (String c lit) = true ->
  scanChunk (String c lit ++ "*") = (false, String c lit, "*").
Proof.
  intros Hl. unfold scanChunk.
  assert (skipStars (String c lit ++ "*") = (false, String c lit ++ "*")) as ->.
  { simpl in Hl |- *. apply andb_true_iff in Hl as [Hc _].
    apply literalByte_inv in Hc as (-> & _). done. }
  rewrite scanLen_literal by done.
  rewrite substring_prefix, substring_suffix, length_append.
  replace (String.length (String c lit) + String.length "*" -
           String.length (String c lit))%nat with 1%nat by (simpl; lia).
  done.
Qed.

Lemma matchChunk_loop_literal lit : forall fuel s,
  literal lit = true -> (String.length lit < fuel)%nat ->
  matchChunk_loop fuel false lit (lit ++ s) = Some (s, true, None).
Proof.
  induction lit as [|c lit IH]; intros [|fuel] s Hl Hf; simpl in Hf; try lia.
  - done.
  - cbn [literal] in Hl. apply andb_true_iff in Hl as [Hc Hl].
    apply literalByte_inv in Hc as (H1 & H2 & H3 & H4).
    change (String c lit ++ s) with (String c (lit ++ s)).
    cbn [matchChunk_loop orb]. rewrite H3, H2, H4.
    rewrite Ascii.eqb_refl. cbn [negb]. apply IH; [done|lia].
Qed.

Lemma Match_star name : Match "*" name = (negb (GoStrings.ContainsByte name "/"), None).
Proof. reflexivity. Qed.

Lemma Match_literal_star lit s :
  literal lit = true ->
  Match (lit ++ "*") (lit ++ s) = (negb (GoStrings.ContainsByte s "/"), None).
Proof.
  intros Hl. destruct lit as [|c lit]; [apply Match_star|].
  unfold Match.
  change (String.length (String c lit ++ "*")) with (S (String.length (lit ++ "*"))).
  change (String c lit ++ "*") with (String c (lit ++ "*")) at 1.
  cbn [Match_loop].
  change (String c (lit ++ "*")) with (String c lit ++ "*").
  rewrite scanChunk_literal_star by done. cbn [andb].
  unfold matchChunk.
  change (String c (lit ++ s)) with (String c lit ++ s).
  rewrite matchChunk_loop_literal by (done || lia).
  cbn [andb String.eqb negb orb]. rewrite orb_true_r.
  rewrite length_append. cbn [String.length]. rewrite Nat.add_1_r.
  done.
Qed.
End TrailingStar.

Module Wildcard.
Import GoPath.

Lemma ContainsByte_app s1 s2 c :
  GoStrings.ContainsByte (s1 ++ s2) c =
  (GoStrings.ContainsByte s1 c || GoStrings.ContainsByte s2 c)%bool.
Proof. induction s1 as [|d s1 IH]; simpl; [done|]. by rewrite IH, orb_assoc. Qed.

Lemma append_cancel lit s1 s2 : lit ++ s1 = lit ++ s2 -> s1 = s2.
Proof. induction lit as [|c lit IH]; simpl; [done|]. intros [= H]. by apply IH. Qed.

Lemma prefix_or_not lit name :
  (exists s, name = lit ++ s) \/ (forall s, name <> lit ++ s).
Proof.
  revert name. induction lit as [|c lit IH]; intros name; [left; by exists name|].
  destruct name as [|d name]; [by right|].
  destruct (Ascii.eqb_spec c d) as [->|Hne].
  - destruct (IH name) as [[s ->]|Hno]; [left; by exists s|].
    right. intros s [= ->]. by apply (Hno s).
  - right. intros s [= -> _]. done.
Qed.

Lemma matchChunk_loop_literal_failed lit : forall fuel s,
  literal lit = true -> (String.length lit < fuel)%nat ->
  matchChunk_loop fuel true lit s = Some ("", false, None).
Proof.
  induction lit as [|c lit IH]; intros [|fuel] s Hl Hf; simpl in Hf; try lia.
  - done.
  - cbn [literal] in Hl. apply andb_true_iff in Hl as [Hc Hl].
    apply TrailingStar.literalByte_inv in Hc as (H1 & H2 & H3 & H4).
    cbn [matchChunk_loop orb]. rewrite H3, H2, H4. apply IH; [done|lia].
Qed.

Lemma matchChunk_loop_literal_other lit : forall fuel s,
  literal lit = true -> (String.length lit < fuel)%nat ->
  (forall rest, s <> lit ++ rest) ->
  matchChunk_loop fuel false lit s = Some ("", false, None).
Proof.
  induction lit as [|c lit IH]; intros [|fuel] s Hl Hf Hno; simpl in Hf; try lia.
  - by destruct (Hno s).
  - cbn [literal] in Hl. apply andb_true_iff in Hl as [Hc Hl].
    apply TrailingStar.literalByte_inv in Hc as (H1 & H2 & H3 & H4).
    cbn [matchChunk_loop orb]. rewrite H3, H2, H4.
    destruct s as [|d s].
    + apply matchChunk_loop_literal_failed; [done|lia].
    + destruct (Ascii.eqb_spec c d) as [->|Hne]; cbn [negb].
      * apply IH; [done|lia|]. intros rest ->. by apply (Hno rest).
      * apply matchChunk_loop_literal_failed; [done|lia].
Qed.

Lemma Match_literal_star_other lit name :
  literal lit = true -> (forall s, name <> lit ++ s) ->
  Match (lit ++ "*") name = (false, None).
Proof.
  intros Hl Hno. destruct lit as [|c lit]; [by destruct (Hno name)|].
  unfold Match.
  change (String.length (String c lit ++ "*")) with (S (String.length (lit ++ "*"))).
  change (String c lit ++ "*") with (String c (lit ++ "*")) at 1.
  cbn [Match_loop].
  change (String c (lit ++ "*")) with (String c lit ++ "*").
  rewrite TrailingStar.scanChunk_literal_star by done. cbn [andb].
  unfold matchChunk.
  rewrite matchChunk_loop_literal_other by (done || lia).
  reflexivity.
Qed.

(** A pattern without "/" and without a character class matches only
    names without "/": neither wildcard takes a "/". *)

Lemma ContainsByte_substring x s : forall n m,
  GoStrings.ContainsByte s x = false ->
  GoStrings.ContainsByte (substring n m s) x = false.
Proof.
  induction s as [|c s IH]; intros n m H; [by destruct n, m|].
  simpl in H. apply orb_false_iff in H as [Hc Hs].
  destruct n as [|n]; simpl.
  - destruct m as [|m]; [done|]. simpl. by rewrite Hc, IH.
  - by apply IH.
Qed.

Lemma ContainsByte_skipStars x p :
  GoStrings.ContainsByte p x = false ->
  GoStrings.ContainsByte (skipStars p).2 x = false.
Proof.
  induction p as [|c p IH]; [done|]. intros H. simpl.
  destruct (Ascii.eqb c "*"); [|done].
  simpl in H. apply orb_false_iff in H as [_ Hs]. by apply IH.
Qed.

Lemma ContainsByte_scanChunk x pattern star chunk rest :
  scanChunk pattern = (star, chunk, rest) ->
  GoStrings.ContainsByte pattern x = false ->
  GoStrings.ContainsByte chunk x = false /\ GoStrings.ContainsByte rest x = false.
Proof.
  unfold scanChunk. intros E H. apply (ContainsByte_skipStars x) in H.
  destruct (skipStars pattern) as [st p]. cbn in H.
  injection E as <- <- <-. split; by apply ContainsByte_substring.
Qed.

Lemma matchChunk_loop_no_slash : forall fuel failed chunk s t e,
  GoStrings.ContainsByte chunk "/" = false ->
  GoStrings.ContainsByte chunk "[" = false ->
  matchChunk_loop fuel failed chunk s = Some (t, true, e) ->
  failed = false /\
  exists u, s = u ++ t /\ GoStrings.ContainsByte u "/" = false.
Proof.
  induction fuel as [|fuel IH]; intros failed chunk s t e Hs Hb; [done|].
  destruct chunk as [|c chunk1].
  - cbn [matchChunk_loop]. destruct failed; intros [= <- <-]. split; [done|].
    by exists "".
  - simpl in Hs, Hb. apply orb_false_iff in Hs as [Hcs Hs].
    apply orb_false_iff in Hb as [Hcb Hb].
    cbn [matchChunk_loop]. rewrite Hcb.
    assert (Hrec : forall (c' : ascii) chunk',
      Ascii.eqb c' "/" = false ->
      GoStrings.ContainsByte chunk' "/" = false ->
      GoStrings.ContainsByte chunk' "[" = false ->
      match (failed || match s with EmptyString => true | _ => false end)%bool, s with
      | false, String c0 s' => matchChunk_loop fuel (negb (Ascii.eqb c' c0)) chunk' s'
      | _, _ => matchChunk_loop fuel
                  (failed || match s with EmptyString => true | _ => false end)%bool
                  chunk' s
      end = Some (t, true, e) ->
      failed = false /\ exists u, s = u ++ t /\ GoStrings.ContainsByte u "/" = false).
    { intros c' chunk' Hc' Hs' Hb' E.
      destruct failed, s as [|c0 s']; cbn [orb] in E;
        try (by apply IH in E as [? _]).
      apply IH in E as (Hf & u & -> & Hu); [|done..]. split; [done|].
      apply negb_false_iff, Ascii.eqb_eq in Hf as <-.
      exists (String c' u). split; [done|]. simpl. by rewrite Hc', Hu. }
    destruct (Ascii.eqb c "?").
    + intros E. destruct failed, s as [|c0 s']; cbn [orb] in E;
        try (by apply IH in E as [? _]).
      apply IH in E as (Hf & u & -> & Hu); [|done..]. split; [done|].
      exists (String c0 u). split; [done|]. simpl. by rewrite Hf, Hu.
    + destruct (Ascii.eqb c "\").
      * destruct chunk1 as [|c' chunk2]; [done|].
        simpl in Hs, Hb. apply orb_false_iff in Hs as [Hcs' Hs].
        apply orb_false_iff in Hb as [_ Hb]. by apply Hrec.
      * by apply Hrec.
Qed.

Lemma skipMatch_no_slash chunk last : forall name t,
  GoStrings.ContainsByte chunk "/" = false ->
  GoStrings.ContainsByte chunk "[" = false ->
  skipMatch chunk last name = Some (inl t) ->
  exists u, name = u ++ t /\ GoStrings.ContainsByte u "/" = false.
Proof.
  induction name as [|c name IH]; intros t Hs Hb; [done|].
  cbn [skipMatch]. destruct (Ascii.eqb c "/") eqn:Hc; [done|].
  assert (Hnext : skipMatch chunk last name = Some (inl t) ->
                  exists u, String c name = u ++ t /\
                            GoStrings.ContainsByte u "/" = false).
  { intros E. apply IH in E as (u & -> & Hu); [|done..].
    exists (String c u). split; [done|]. simpl. by rewrite Hc, Hu. }
  unfold matchChunk.
  destruct (matchChunk_loop _ false chunk name) as [[[t' ok] err]|] eqn:E; [|done].
  destruct ok.
  - apply matchChunk_loop_no_slash in E as (_ & u & -> & Hu); [|done..].
    destruct (last && negb (String.eqb t' ""))%bool; [done|].
    intros [= <-]. exists (String c u). split; [done|]. simpl. by rewrite Hc, Hu.
  - by destruct err.
Qed.

Lemma Match_loop_no_slash : forall fuel pattern name e,
  GoStrings.ContainsByte pattern "/" = false ->
  GoStrings.ContainsByte pattern "[" = false ->
  Match_loop fuel pattern name = Some (true, e) ->
  GoStrings.ContainsByte name "/" = false.
Proof.
  induction fuel as [|fuel IH]; intros pattern name e Hs Hb; [done|].
  cbn [Match_loop]. destruct pattern as [|c0 p0] eqn:Ep.
  { intros [= ->%String.eqb_eq _]. done. }
  rewrite <- Ep in *. clear Ep c0 p0.
  destruct (scanChunk pattern) as [[star chunk] rest] eqn:Esc.
  destruct (ContainsByte_scanChunk "/" _ _ _ _ Esc Hs) as [Hcs Hrs].
  destruct (ContainsByte_scanChunk "[" _ _ _ _ Esc Hb) as [Hcb Hrb].
  destruct (star && String.eqb chunk "")%bool.
  { intros [= ->%negb_true_iff _]. done. }
  assert (Hno : match checkRest (S (String.length rest)) rest with
                | None => None
                | Some (Some err) => Some (false, Some err)
                | Some None => Some (false, None)
                end <> Some (true, e)).
  { by destruct (checkRest _ _) as [[?|]|]. }
  assert (Hstar : (if star then
                     match skipMatch chunk (String.eqb rest "") name with
                     | None => None
                     | Some (inl t) => Match_loop fuel rest t
                     | Some (inr (Some err)) => Some (false, Some err)
                     | Some (inr None) =>
                         match checkRest (S (String.length rest)) rest with
                         | None => None
                         | Some (Some err) => Some (false, Some err)
                         | Some None => Some (false, None)
                         end
                     end
                   else
                     match checkRest (S (String.length rest)) rest with
                     | None => None
                     | Some (Some err) => Some (false, Some err)
                     | Some None => Some (false, None)
                     end) = Some (true, e) ->
                  GoStrings.ContainsByte name "/" = false).
  { destruct star; [|done].
    destruct (skipMatch chunk _ name) as [[t|[err|]]|] eqn:Esk; try done.
    intros E. apply skipMatch_no_slash in Esk as (u & -> & Hu); [|done..].
    apply IH in E; [|done..]. by rewrite ContainsByte_app, Hu, E. }
  unfold matchChunk.
  destruct (matchChunk_loop _ false chunk name) as [[[t ok] err]|] eqn:E; [|done].
  destruct (ok && (String.eqb t "" || negb (String.eqb rest "")))%bool eqn:Eok.
  - apply andb_true_iff in Eok as [-> _].
    apply matchChunk_loop_no_slash in E as (_ & u & -> & Hu); [|done..].
    intros E. apply IH in E; [|done..]. by rewrite ContainsByte_app, Hu, E.
  - destruct err; [done|]. apply Hstar.
Qed.

Lemma Match_no_slash pattern name :
  GoStrings.ContainsByte pattern "/" = false ->
  GoStrings.ContainsByte pattern "[" = false ->
  (Match pattern name).1 = true ->
  GoStrings.ContainsByte name "/" = false.
Proof.
  intros Hs Hb. unfold Match.
  destruct (Match_loop _ pattern name) as [[[] e]|] eqn:E; try done.
  intros _. by apply (Match_loop_no_slash _ _ _ _ Hs Hb E).
Qed.

End Wildcard.

(** C4 (as amended): the wildcard stops at "/" and at nothing else.  A
    pattern made of bytes without operator followed by the wildcard
    matches exactly the names that start with these bytes and have no
    "/" in the rest, without error; "." is one more byte.  A pattern
    without "/" and without a character class matches no name with a
    "/".  With such a pattern registered, [Exists] answers [true] and
    [findHandler] takes a registered map for every such name, dots
    included; when it is the only registered name, [Exists] answers
    [true] for these names and for no other. *)
Theorem trailing_wildcard_stops_at_slash_only lit s r ρ :
  literal lit = true ->
  GoPath.Match (lit ++ "*") (lit ++ s) = (negb (GoStrings.ContainsByte s "/"), None) /\
  (forall name,
     (GoPath.Match (lit ++ "*") name).2 = None /\
     ((GoPath.Match (lit ++ "*") name).1 = true <->
      exists rest, name = lit ++ rest /\ GoStrings.ContainsByte rest "/" = false)) /\
  (forall pattern name,
     GoStrings.ContainsByte pattern "/" = false ->
     GoStrings.ContainsByte pattern "[" = false ->
     (GoPath.Match pattern name).1 = true ->
     GoStrings.ContainsByte name "/" = false) /\
  (is_Some (domainMap r !! (lit ++ "*")) ->
   GoStrings.ContainsByte s "/" = false ->
   result (Exists ρ (lit ++ s) r) = true /\
   is_Some (findHandler_proxyHandlers ρ r (lit ++ s))) /\
  ((forall key, is_Some (domainMap r !! key) <-> key = lit ++ "*") ->
   forall name,
     result (Exists ρ name r) = true <->
     exists rest, name = lit ++ rest /\ GoStrings.ContainsByte rest "/" = false).
Proof.
  intros Hl. pose proof (TrailingStar.Match_literal_star lit s Hl) as Hm.
  assert (Hiff : forall name,
     (GoPath.Match (lit ++ "*") name).2 = None /\
     ((GoPath.Match (lit ++ "*") name).1 = true <->
      exists rest, name = lit ++ rest /\ GoStrings.ContainsByte rest "/" = false)).
  { intros name. destruct (Wildcard.prefix_or_not lit name) as [[rest ->]|Hno].
    - rewrite (TrailingStar.Match_literal_star lit rest Hl). cbn. split; [done|].
      split.
      + intros H%negb_true_iff. by exists rest.
      + intros (rest' & Heq%Wildcard.append_cancel & H). subst rest'. by rewrite H.
    - rewrite (Wildcard.Match_literal_star_other lit name Hl Hno). cbn.
      split; [done|]. split; [done|]. intros (rest & -> & _). by destruct (Hno rest). }
  split; [done|]. split; [done|]. split; [apply Wildcard.Match_no_slash|]. split.
  - intros Hs Hc. rewrite Hc in Hm. split.
    + apply Exists_true. right. exists (lit ++ "*"). by rewrite Hm.
    + destruct (findHandler_proxyHandlers ρ r (lit ++ s)) as [x|] eqn:E; [eauto|].
      pose proof (findHandler_proxyHandlers_None ρ r _ E _ Hs) as Hf.
      by rewrite Hm in Hf.
  - intros Honly name. rewrite Exists_true. split.
    + intros [Hk%Honly|(key & Hk%Honly & Hmatch)].
      * exists "*". by rewrite Hk.
      * subst key. by apply Hiff.
    + intros Hex. right. exists (lit ++ "*"). split; [by apply Honly|]. by apply Hiff.
Qed.

(** ** The claims at concrete inputs *)

(** [path.Match] on cases of the test table of the Go library. *)
Example Match_library_cases :
  GoPath.Match "a*" "ab/c" = (false, None) /\
  GoPath.Match "a*b*c*d*e*/f" "axbxcxdxexxx/f" = (true, None) /\
  GoPath.Match "a*b?c*x" "abxbbxdbxebxczzx" = (true, None) /\
  GoPath.Match "ab[^e-g]" "abc" = (true, None) /\
  GoPath.Match "[x\-]" "-" = (true, None) /\
  GoPath.Match "a?b" "a/b" = (false, None) /\
  GoPath.Match "[a-b-c]" "a" = (false, Some GoPath.ErrBadPattern) /\
  GoPath.Match "a[" "x" = (false, Some GoPath.ErrBadPattern) /\
  GoPath.Match "*x" "xxx" = (true, None).
Proof. vm_compute. repeat split. Qed.

Lemma reachable_table_foo : reachable example_config 0 table_foo.
Proof. apply reach_Add, reach_New. Defined.

(** C1, the claim as written fails: "foo" has the backend 10.0.0.1, added
    at 0; 10.0.0.2 is added at 1; the lookup at 2 on port 80, visiting the
    bucket in key order, returns the handler that forwards to 10.0.0.1. *)
Lemma lookup_returns_other_backend :
  reachable example_config 0 table_foo /\
  mkPortMap 80 5000 ∈ HTTP (cfg_Listen example_config) /\
  exists h,
    result (findHandler in_order in_order 2 "foo" 80
              (state (AddSubdomain 1 "foo" "10.0.0.2" 5000 table_foo))) = Some h /\
    forwards_to h = "10.0.0.1" /\ forwards_to h <> "10.0.0.2".
Proof.
  split; [apply reachable_table_foo|]. split; [left|].
  exists (NewSingleHostReverseProxy
            {| Scheme := "http"; Host := "10.0.0.1"; Port := 5000 |}).
  split; [vm_compute; reflexivity|]. split; [reflexivity|discriminate].
Qed.

Lemma add_then_lookup_witness :
  exists h,
    result (findHandler in_order reversed 29999999999 "foo" 80
              (state (AddSubdomain 1 "foo" "10.0.0.2" 5000 table_foo))) = Some h /\
    (exists ip hd,
       bucket (state (AddSubdomain 1 "foo" "10.0.0.2" 5000 table_foo)) "foo" 80 !! ip
         = Some hd /\
       (alive 29999999999 hd).1 = true /\ h = handler hd /\ forwards_to h = ip) /\
    (exists hd,
       bucket (state (AddSubdomain 1 "foo" "10.0.0.2" 5000 table_foo)) "foo" 80
         !! "10.0.0.2" = Some hd /\
       (alive 29999999999 hd).1 = true /\ forwards_to (handler hd) = "10.0.0.2") /\
    ((forall ip hd,
        bucket (state (AddSubdomain 1 "foo" "10.0.0.2" 5000 table_foo)) "foo" 80 !! ip
          = Some hd ->
        (alive 29999999999 hd).1 = true -> ip = "10.0.0.2") ->
     forwards_to h = "10.0.0.2").
Proof.
  apply (add_then_lookup example_config 0 table_foo in_order reversed
           "foo" "10.0.0.2" 5000 80 1 29999999999).
  - apply reachable_table_foo.
  - lia.
  - left.
  - unfold proxyHandlerLifetime, GoTime.Second. lia.
Defined.

Lemma lookup_after_lifetime_finds_nothing_witness :
  result (findHandler in_order in_order 30000000000 "foo" 80
            (run [DoLookup in_order in_order 5 "foo" 80; DoExists in_order "foo"]
               (state (AddSubdomain 0 "foo" "10.0.0.2" 5000 table_foo)))) = None /\
  bucket (state (findHandler in_order in_order 30000000000 "foo" 80
            (run [DoLookup in_order in_order 5 "foo" 80; DoExists in_order "foo"]
               (state (AddSubdomain 0 "foo" "10.0.0.2" 5000 table_foo))))) "foo" 80 = ∅.
Proof.
  refine (let H := _ in conj (proj1 H) (proj1 (proj2 H))).
  apply (lookup_after_lifetime_finds_nothing example_config 0 table_foo
           "foo" "10.0.0.2" 5000 0
           [DoLookup in_order in_order 5 "foo" 80; DoExists in_order "foo"]
           in_order in_order 30000000000 80).
  - apply reachable_table_foo.
  - lia.
  - repeat constructor.
  - unfold proxyHandlerLifetime, GoTime.Second. lia.
Defined.

(** C3, the claim as written fails: the key of "Foo" is stored as "Foo",
    and the request for the host "Foo.example.com", looked up as "foo",
    is not found. *)
Lemma mixed_case_key_stored_as_written :
  result (Subdomains in_order table_Foo) = ["Foo"] /\
  result (ServeHTTPWithPort in_order in_order 1 "Foo.example.com" 80 table_Foo) = NotFound.
Proof. vm_compute. split; reflexivity. Qed.

Lemma keys_as_written_requests_lowercased_witness :
  dom (domainMap table_foo) = {["foo"]} ∪ dom (domainMap (NewReverseProxy example_config)) /\
  (forall host, GoStrings.ToLower (GoStrings.SplitFirst host ".") = "foo" ->
     exists ip hd,
       result (ServeHTTPWithPort in_order in_order 1 host 80 table_foo)
         = ServeHTTP (handler hd) /\
       bucket table_foo "foo" 80 !! ip = Some hd /\ (alive 1 hd).1 = true) /\
  (GoStrings.ToLower "foo" <> "foo" ->
   forall host, GoStrings.ToLower (GoStrings.SplitFirst host ".") <> "foo").
Proof.
  apply (keys_as_written_requests_lowercased example_config 0
           (NewReverseProxy example_config) in_order in_order
           "foo" "10.0.0.1" 5000 80 0 1).
  - apply reach_New.
  - lia.
  - left.
  - unfold proxyHandlerLifetime, GoTime.Second. lia.
Defined.

(** C4, the claim as written fails: "pr-*" matches "pr-123.extra"; with
    the pattern registered, [Exists] answers [true] for that name and
    [findHandler] returns the handler of the pattern. *)
Lemma wildcard_matches_across_dot :
  GoPath.Match "pr-*" "pr-123" = (true, None) /\
  GoPath.Match "pr-*" "pr-123.extra" = (true, None) /\
  result (Exists in_order "pr-123.extra" table_pr) = true /\
  result (findHandler in_order in_order 1 "pr-123.extra" 80 table_pr) =
    Some (NewSingleHostReverseProxy
            {| Scheme := "http"; Host := "10.0.0.1"; Port := 5000 |}).
Proof. vm_compute. repeat split. Qed.

Lemma trailing_wildcard_stops_at_slash_only_witness :
  GoPath.Match "pr-*" "pr-123.extra" = (true, None) /\
  (forall name,
     (GoPath.Match "pr-*" name).2 = None /\
     ((GoPath.Match "pr-*" name).1 = true <->
      exists rest, name = "pr-" ++ rest /\ GoStrings.ContainsByte rest "/" = false)) /\
  (forall pattern name,
     GoStrings.ContainsByte pattern "/" = false ->
     GoStrings.ContainsByte pattern "[" = false ->
     (GoPath.Match pattern name).1 = true ->
     GoStrings.ContainsByte name "/" = false) /\
  (is_Some (domainMap table_pr !! "pr-*") ->
   GoStrings.ContainsByte "123.extra" "/" = false ->
   result (Exists reversed "pr-123.extra" table_pr) = true /\
   is_Some (findHandler_proxyHandlers reversed table_pr "pr-123.extra")) /\
  ((forall key, is_Some (domainMap table_pr !! key) <-> key = "pr-*") ->
   forall name,
     result (Exists reversed name table_pr) = true <->
     exists rest, name = "pr-" ++ rest /\ GoStrings.ContainsByte rest "/" = false).
Proof.
  apply (trailing_wildcard_stops_at_slash_only "pr-" "123.extra" table_pr reversed).
  reflexivity.
Defined.

Lemma exact_key_before_patterns_witness :
  findHandler_proxyHandlers reversed
    (state (AddSubdomain 0 "f*" "10.0.0.9" 5000 table_foo)) "foo"
    = Some ("foo", default ∅ (domainMap table_foo !! "foo")) /\
  forall name, name <> "foo" ->
    domainMap (state (findHandler reversed in_order 40000000000 "foo" 80
                 (state (AddSubdomain 0 "f*" "10.0.0.9" 5000 table_foo)))) !! name =
    domainMap (state (AddSubdomain 0 "f*" "10.0.0.9" 5000 table_foo)) !! name.
Proof.
  pose proof (exact_key_before_patterns reversed in_order 40000000000 "foo" 80
                (state (AddSubdomain 0 "f*" "10.0.0.9" 5000 table_foo))
                (default ∅ (domainMap table_foo !! "foo"))) as H.
  destruct H as (H1 & _ & _ & H4 & _); [vm_compute; reflexivity|].
  split; [exact H1|exact H4].
Defined.

Lemma Exists_registered_whatever_liveness_witness :
  Exists in_order "pr-123" table_pr = (true, table_pr, []) /\
  forall cs ρ', Forall (fun c => is_Remove c = false) cs ->
    result (Exists ρ' "pr-123" (run cs table_pr)) = true.
Proof.
  apply (Exists_registered_whatever_liveness in_order "pr-123" table_pr).
  right. exists "pr-*". split; [|reflexivity]. vm_compute. eauto.
Defined.

Lemma one_handler_per_address_witness :
  NoDup ((fun kv => forwards_to (handler kv.2)) <$> map_to_list (bucket table_foo "foo" 80)) /\
  bucket (state (AddSubdomain 7 "foo" "10.0.0.1" 5000 table_foo)) "foo" 80 =
    <[ "10.0.0.1" := extend 7 (newProxyHandler 0 (NewSingleHostReverseProxy
         {| Scheme := "http"; Host := "10.0.0.1"; Port := 5000 |})) ]>
      (bucket table_foo "foo" 80).
Proof.
  destruct (one_handler_per_address example_config 0 table_foo reachable_table_foo)
    as [H1 H2].
  split; [apply H1|].
  apply (H2 7 "foo" "10.0.0.1" 5000 80); [lia|left|reflexivity|reflexivity].
Defined.

(** C8, the claim as written fails: no HTTP port map has the target port
    9999, and the call writes no log line. *)
Lemma no_listen_port_no_log_line :
  (9999 ∉ (TargetPort <$> HTTP (cfg_Listen example_config))) /\
  logged (AddSubdomain 0 "foo" "10.0.0.1" 9999 (NewReverseProxy example_config)) = [].
Proof. split; [by apply (bool_decide_unpack _)|reflexivity]. Qed.

Lemma AddSubdomain_no_listen_port_silent_witness :
  result (AddSubdomain 3 "foo" "10.0.0.1" 9999 table_foo) = tt /\
  (forall p, domainMap (state (AddSubdomain 3 "foo" "10.0.0.1" 9999 table_foo))
               !! "foo" ≫= (.!! p) =
             domainMap table_foo !! "foo" ≫= (.!! p)) /\
  logged (AddSubdomain 3 "foo" "10.0.0.1" 9999 table_foo) = [].
Proof.
  apply (AddSubdomain_no_listen_port_silent 3 "foo" "10.0.0.1" 9999 table_foo).
  by apply (bool_decide_unpack _).
Defined.

Lemma AddSubdomain_unmatched_port_registers_domain_witness :
  domainMap (state (AddSubdomain 3 "bar" "10.0.0.1" 9999 table_foo)) !! "bar" = Some ∅ /\
  (forall ρ, result (Exists ρ "bar" (state (AddSubdomain 3 "bar" "10.0.0.1" 9999 table_foo)))
             = true) /\
  (forall ρ, "bar" ∈ result (Subdomains ρ
                      (state (AddSubdomain 3 "bar" "10.0.0.1" 9999 table_foo)))) /\
  (forall ρ ρh t p,
     result (findHandler ρ ρh t "bar" p
               (state (AddSubdomain 3 "bar" "10.0.0.1" 9999 table_foo))) = None).
Proof.
  apply (AddSubdomain_unmatched_port_registers_domain 3 "bar" "10.0.0.1" 9999 table_foo).
  - vm_compute. reflexivity.
  - by apply (bool_decide_unpack _).
Defined.

Lemma AddSubdomain_only_HTTP_listen_ports_witness :
  (domainMap (state (AddSubdomain 3 "foo" "10.0.0.2" 5000 table_foo)) !! "foo" ≫= (.!! 443)) =
    (domainMap table_foo !! "foo" ≫= (.!! 443)) /\
  (forall d', d' <> "foo" ->
     domainMap (state (AddSubdomain 3 "foo" "10.0.0.2" 5000 table_foo)) !! d' =
     domainMap table_foo !! d') /\
  (forall https,
     domainMap (state (AddSubdomain 3 "foo" "10.0.0.2" 5000 (set_HTTPS table_foo https))) =
       domainMap (state (AddSubdomain 3 "foo" "10.0.0.2" 5000 table_foo)) /\
     logged (AddSubdomain 3 "foo" "10.0.0.2" 5000 (set_HTTPS table_foo https)) =
       logged (AddSubdomain 3 "foo" "10.0.0.2" 5000 table_foo)).
Proof.
  apply (AddSubdomain_only_HTTP_listen_ports 3 "foo" "10.0.0.2" 5000 table_foo 443).
  by apply (bool_decide_unpack _).
Defined.


(** * Further properties of the table

    ** [RemoveSubdomain] *)

Lemma set_domainMap_same r : set_domainMap r (domainMap r) = r.
Proof. by destruct r. Qed.

Lemma bucket_insert_ne r d d' ph p :
  d <> d' -> bucket (set_domainMap r (<[d := ph]> (domainMap r))) d' p = bucket r d' p.
Proof. intros Hne. unfold bucket. cbn. by rewrite lookup_insert_ne. Qed.

(** X1: [RemoveSubdomain] leaves no bucket under the domain, on any port,
    and keeps every other entry.  Afterwards the domain exists only if
    another registered name matches it, and a handler found for it is the
    handler of a live entry registered under such a name. *)
Theorem RemoveSubdomain_wipes_domain d r :
  let r' := state (RemoveSubdomain d r) in
  domainMap r' !! d = None /\
  (forall p, bucket r' d p = ∅) /\
  (forall d', d' <> d -> domainMap r' !! d' = domainMap r !! d') /\
  (forall ρ, result (Exists ρ d r') = true <->
     exists name, name <> d /\ is_Some (domainMap r !! name) /\
                  (GoPath.Match name d).1 = true) /\
  (forall ρ ρh now p hd,
     result (findHandler ρ ρh now d p r') = Some hd ->
     exists name ip h, name <> d /\ (GoPath.Match name d).1 = true /\
       bucket r name p !! ip = Some h /\ (alive now h).1 = true /\ hd = handler h).
Proof.
  intros r'. subst r'. rewrite RemoveSubdomain_run. unfold state. cbn [fst snd].
  set (r' := set_domainMap r (delete d (domainMap r))).
  assert (Hd : domainMap r' !! d = None) by apply lookup_delete_eq.
  assert (Ho : forall d', d' <> d -> domainMap r' !! d' = domainMap r !! d').
  { intros d' Hne. by apply lookup_delete_ne. }
  split; [done|]. split; [|split; [done|split]].
  - intros p. unfold bucket. by rewrite Hd.
  - intros ρ. rewrite Exists_true. split.
    + intros [[? H]|(name & Hs & Hm)]; [congruence|].
      destruct (decide (name = d)) as [->|Hne]; [destruct Hs; congruence|].
      exists name. by rewrite <- Ho.
    + intros (name & Hne & Hs & Hm). right. exists name. by rewrite Ho.
  - intros ρ ρh now p hd. rewrite findHandler_run.
    destruct (findHandler_proxyHandlers ρ r' d) as [[name ph]|] eqn:E; [|done].
    apply findHandler_proxyHandlers_Some in E as [Hn [->|[_ Hm]]]; [congruence|].
    destruct (decide (name = d)) as [->|Hne]; [congruence|].
    destruct (Handler_spec ρh now p ph) as (res & hs' & lg & -> & _ & _ & Hres).
    unfold result. cbn [fst]. intros ->.
    destruct Hres as (ip & h & Hl & Hal & ->).
    exists name, ip, h. repeat split; auto.
    unfold bucket. by rewrite <- Ho, Hn.
Qed.

(** X2: removing a domain that is not registered leaves the table as it
    is, and the call still writes its log line; removing a domain twice is
    removing it once. *)
Theorem RemoveSubdomain_absent_no_change d r :
  (domainMap r !! d = None ->
   RemoveSubdomain d r = (tt, r, [Printf "[info] removing subdomain:" [ArgS d]])) /\
  state (RemoveSubdomain d (state (RemoveSubdomain d r))) = state (RemoveSubdomain d r).
Proof.
  rewrite !RemoveSubdomain_run. unfold state. cbn [fst snd]. split.
  - intros Hd. by rewrite delete_id, set_domainMap_same.
  - unfold set_domainMap. cbn. by rewrite delete_delete_eq.
Qed.

(** ** [Modify] *)

Lemma Modify_Add now d a p :
  Modify now (mkProxyControl proxyAdd d a p) = AddSubdomain now d a p.
Proof. reflexivity. Qed.

Lemma Modify_Remove now d a p :
  Modify now (mkProxyControl proxyRemove d a p) = RemoveSubdomain d.
Proof. reflexivity. Qed.

(** X3: through [Modify], adding a backend for a domain that is not
    registered and then removing the domain, whatever address and port the
    remove action carries, gives back the table as it was; and an action
    that is neither "Add" nor "Remove" leaves every table as it is,
    whether the domain it names is registered or not, and writes one
    error line. *)
Theorem Modify_add_remove_round_trip now now' d a tp a' p' r :
  (domainMap r !! d = None ->
   state (Modify now' (mkProxyControl proxyRemove d a' p')
            (state (Modify now (mkProxyControl proxyAdd d a tp) r))) = r) /\
  (forall kind, kind <> proxyAdd -> kind <> proxyRemove ->
     Modify now (mkProxyControl kind d a tp) r =
     (tt, r, [Printf "[error] unknown proxy action: %s" [ArgS kind]])).
Proof.
  split.
  - intros Hd. rewrite Modify_Add, Modify_Remove, RemoveSubdomain_run, AddSubdomain_run.
    destruct (AddSubdomain_range _ _ _ _ _ _) as [[u ph'] lg].
    unfold state, set_domainMap. cbn.
    rewrite delete_insert_eq, delete_id by done. by destruct r.
  - intros kind H1 H2. unfold Modify. cbn [Action].
    apply String.eqb_neq in H1, H2. by rewrite H1, H2.
Qed.

(** ** [Subdomains] *)

(** X4: [Subdomains] lists every registered name once and nothing else,
    in the order of the visit, and leaves the table and the log alone. *)
Theorem Subdomains_lists_keys ρ r :
  state (Subdomains ρ r) = r /\ logged (Subdomains ρ r) = [] /\
  NoDup (result (Subdomains ρ r)) /\
  length (result (Subdomains ρ r)) = size (domainMap r) /\
  (forall d, d ∈ result (Subdomains ρ r) <-> is_Some (domainMap r !! d)).
Proof.
  rewrite Subdomains_run. unfold state, logged, result. cbn [fst snd].
  split; [done|]. split; [done|]. split; [|split].
  - rewrite (visit_perm ρ). apply NoDup_fst_map_to_list.
  - rewrite (visit_perm ρ). unfold keys. by rewrite length_fmap, length_map_to_list.
  - intros d. by rewrite elem_of_visit, elem_of_keys.
Qed.

(** ** Names that no registered name matches *)

(** X5: when a name is no key of the table and no registered name matches
    it, in particular on the table [NewReverseProxy] returns, [Exists]
    answers [false], [findHandler] finds nothing on any port and leaves the
    table as it is, and the dispatcher answers not found to every host
    whose first label lower-cases to the name. *)
Theorem unmatched_name_not_found d r :
  (forall name, is_Some (domainMap r !! name) ->
     name <> d /\ (GoPath.Match name d).1 = false) ->
  (forall ρ, result (Exists ρ d r) = false) /\
  (forall ρ ρh now p,
     findHandler ρ ρh now d p r =
       (None, r, [Printf "[debug] findHandler for %s:%d" [ArgS d; ArgD p]])) /\
  (forall ρ ρh now p host,
     GoStrings.ToLower (GoStrings.SplitFirst host ".") = d ->
     ServeHTTPWithPort ρ ρh now host p r =
       (NotFound, r,
        [Printf "[debug] findHandler for %s:%d" [ArgS d; ArgD p];
         Printf "[warn] proxy handler not found for subdomain %s" [ArgS d]])).
Proof.
  intros Hno.
  assert (Hf : forall ρ, findHandler_proxyHandlers ρ r d = None).
  { intros ρ. destruct (findHandler_proxyHandlers ρ r d) as [[name ph]|] eqn:E; [|done].
    apply findHandler_proxyHandlers_Some in E as [Hn Hwhy].
    destruct (Hno name) as [Hne Hm]; [eauto|].
    destruct Hwhy as [->|[_ ?]]; congruence. }
  assert (Hfind : forall ρ ρh now p,
     findHandler ρ ρh now d p r =
       (None, r, [Printf "[debug] findHandler for %s:%d" [ArgS d; ArgD p]])).
  { intros. by rewrite findHandler_run, Hf. }
  split; [|split; [done|]].
  - intros ρ. destruct (result (Exists ρ d r)) eqn:E; [|done].
    apply Exists_true in E as [Hs|(name & Hs & Hm)].
    + by destruct (Hno d Hs).
    + destruct (Hno name Hs). congruence.
  - intros ρ ρh now p host Hhost. unfold ServeHTTPWithPort. rewrite Hhost.
    rewrite run_bind, Hfind. by run_M.
Qed.

(** ** What a lookup does to the table *)



(** X7: a handler that [findHandler] returns is the handler of an entry
    that is alive at the time of the lookup, in the bucket of the port
    under the domain itself or, when the domain is no key, under a
    registered name that matches it. *)
Theorem findHandler_returns_live_handler ρ ρh now d p r hd :
  result (findHandler ρ ρh now d p r) = Some hd ->
  exists name ip h,
    (name = d \/ (domainMap r !! d = None /\ (GoPath.Match name d).1 = true)) /\
    bucket r name p !! ip = Some h /\ (alive now h).1 = true /\ hd = handler h.
Proof.
  rewrite findHandler_run.
  destruct (findHandler_proxyHandlers ρ r d) as [[name ph]|] eqn:E; [|done].
  apply findHandler_proxyHandlers_Some in E as [Hn Hwhy].
  destruct (Handler_spec ρh now p ph) as (res & hs' & lg & -> & _ & _ & Hres).
  unfold result. cbn [fst]. intros ->. destruct Hres as (ip & h & Hl & Hal & ->).
  exists name, ip, h. repeat split; auto. unfold bucket. by rewrite Hn.
Qed.

(** ** More on [AddSubdomain] *)

Lemma fresh_timer_alive_iff now now' h :
  timer h = GoTime.NewTimer now proxyHandlerLifetime ->
  (alive now' h).1 = true <-> now' < now + proxyHandlerLifetime.
Proof.
  destruct h as [hd t]. cbn. intros ->.
  unfold alive, GoTime.tryRecv, GoTime.expire, GoTime.NewTimer. cbn.
  destruct (Z.leb_spec (now + proxyHandlerLifetime) now'); cbn; split; (done || lia).
Qed.

Lemma AddSubdomain_range_twice now d a tp vs ph :
  state (AddSubdomain_range now d a tp vs
           (state (AddSubdomain_range now d a tp vs ph))) =
  state (AddSubdomain_range now d a tp vs ph).
Proof.
  apply map_eq. intros p. rewrite !AddSubdomain_range_lookup.
  destruct (existsb (visits tp p) vs); [|done]. cbn.
  by rewrite slot_after_insert, insert_insert_eq.
Qed.

(** X8: calling [AddSubdomain] again at the same instant with the same
    arguments changes nothing more: the table is the one the first call
    left. *)
Theorem AddSubdomain_idempotent now d a tp r :
  state (AddSubdomain now d a tp (state (AddSubdomain now d a tp r))) =
  state (AddSubdomain now d a tp r).
Proof.
  rewrite (AddSubdomain_run now d a tp (state _)).
  rewrite AddSubdomain_cfg, AddSubdomain_domainMap, lookup_insert_eq. cbn.
  rewrite (AddSubdomain_run now d a tp r).
  pose proof (AddSubdomain_range_twice now d a tp (HTTP (cfg_Listen (cfg r)))
                (default ∅ (domainMap r !! d))) as Htw.
  destruct (AddSubdomain_range now d a tp (HTTP (cfg_Listen (cfg r)))
              (default ∅ (domainMap r !! d))) as [[u ph'] lg].
  unfold state in *. cbn in *.
  destruct (AddSubdomain_range now d a tp (HTTP (cfg_Listen (cfg r))) ph')
    as [[u2 ph2] lg2].
  cbn in *. subst ph2. unfold set_domainMap. cbn. by rewrite insert_insert_eq.
Qed.

(** X9: when the bucket of a listen port bound to the target port has no
    handler for the address, or has one that is expired, [AddSubdomain]
    puts a new handler there: it forwards to [http://address:targetPort]
    and is alive exactly until 30s from now.  The bucket grows by one entry
    in the first case and keeps its size in the second. *)
Theorem AddSubdomain_new_handler now d a tp L r :
  mkPortMap L tp ∈ HTTP (cfg_Listen (cfg r)) ->
  (forall h, bucket r d L !! a = Some h -> (alive now h).1 = false) ->
  let r' := state (AddSubdomain now d a tp r) in
  let new := newProxyHandler now (NewSingleHostReverseProxy
               {| Scheme := "http"; Host := a; Port := tp |}) in
  bucket r' d L = <[a := new]> (bucket r d L) /\
  (forall now', (alive now' new).1 = true <-> now' < now + proxyHandlerLifetime) /\
  size (bucket r' d L) =
    match bucket r d L !! a with
    | Some _ => size (bucket r d L)
    | None => S (size (bucket r d L))
    end.
Proof.
  intros Hin Hdead r' new. subst r'.
  rewrite bucket_after_AddSubdomain by by apply visits_some.
  assert (slot_after now a tp (bucket r d L) = new) as ->.
  { unfold slot_after. destruct (bucket r d L !! a) as [h|] eqn:E; [|done].
    by rewrite (Hdead h eq_refl). }
  split; [done|]. split.
  - intros now'. by apply fresh_timer_alive_iff.
  - destruct (bucket r d L !! a) as [h|] eqn:E.
    + rewrite map_size_insert_Some; [done|]. by rewrite E.
    + by rewrite map_size_insert_None.
Qed.

(** X10: [AddSubdomain] for an address touches no other address: in every
    bucket of the domain the handlers of the other addresses are left as
    they were, expired ones included, and no bucket of another domain
    changes. *)
Theorem AddSubdomain_other_backends_untouched now d a tp r :
  let r' := state (AddSubdomain now d a tp r) in
  (forall p ip, ip <> a -> bucket r' d p !! ip = bucket r d p !! ip) /\
  (forall d' p, d' <> d -> bucket r' d' p = bucket r d' p).
Proof.
  intros r'. subst r'. unfold bucket. rewrite AddSubdomain_domainMap. split.
  - intros p ip Hne. rewrite lookup_insert_eq. cbn.
    rewrite AddSubdomain_range_lookup.
    destruct (existsb _ _); cbn.
    + rewrite lookup_insert_ne by done. by destruct (domainMap r !! d).
    + by destruct (domainMap r !! d).
  - intros d' p Hne. by rewrite lookup_insert_ne.
Qed.

(** ** The timer of a handler *)

(** X11: [alive] reports an expired handler dead once.  For a handler made
    at [t0], the first [alive] at [t0 + 30s] or later answers [false] and
    takes the value out of the timer's channel; every later [alive] on
    that handler answers [true] again.  [extend] at [now] on a handler that
    [alive] has just found alive makes it alive exactly until [now + 30s]. *)
Theorem alive_reports_dead_once t0 hd now :
  t0 + proxyHandlerLifetime <= now ->
  let h := newProxyHandler t0 hd in
  (alive now h).1 = false /\
  (forall now', (alive now' (alive now h).2).1 = true) /\
  (forall t h', (alive t h').1 = true ->
     forall now', (alive now' (extend t (alive t h').2)).1 = true <->
                  now' < t + proxyHandlerLifetime).
Proof.
  intros Hle h. subst h. split; [|split].
  - unfold newProxyHandler, alive, GoTime.tryRecv, GoTime.expire, GoTime.NewTimer.
    cbn. by destruct (Z.leb_spec (t0 + proxyHandlerLifetime) now); [|lia].
  - intros now'.
    unfold newProxyHandler, alive, GoTime.tryRecv, GoTime.expire, GoTime.NewTimer.
    cbn. by destruct (Z.leb_spec (t0 + proxyHandlerLifetime) now); [|lia].
  - intros t h' Hal now'. by apply fresh_timer_alive_iff, extend_expires_by.
Qed.

(** X12: in a table that is reachable when the clock reads [t], every
    stored handler has a deadline, [t + 30s] at the latest: asked at [t]
    or later, [alive] answers [true] exactly before the deadline.  So no
    stored handler is one whose expiry [alive] has already reported, which
    would be found alive for ever; the configuration is the one the table
    was made with. *)
Theorem reachable_handlers_have_deadline c t r :
  reachable c t r ->
  cfg r = c /\
  forall d p ip h, bucket r d p !! ip = Some h ->
    exists deadline,
      deadline <= t + proxyHandlerLifetime /\
      forall now, t <= now -> ((alive now h).1 = true <-> now < deadline).
Proof.
  intros Hr. destruct (reachable_ok c t r Hr) as [Hc Hok]. split; [done|].
  intros d p ip h Hl.
  assert (He : expires_by (t + proxyHandlerLifetime) h).
  { unfold bucket in Hl. destruct (domainMap r !! d) as [ph|] eqn:E; [|done].
    cbn in Hl. by destruct (handlers_ok_lookup _ ph p (Hok d ph E) ip h Hl). }
  exists (GoTime.when (timer h)). split; [by destruct He as (_ & _ & ?)|].
  intros now _. rewrite (alive_expires_by (t + proxyHandlerLifetime)) by done.
  apply bool_decide_eq_true.
Qed.

(** ** The name the dispatcher asks for *)

Lemma SplitFirst_no_sep s c : GoStrings.ContainsByte (GoStrings.SplitFirst s c) c = false.
Proof.
  induction s as [|x s IH]; [done|]. cbn. destruct (Ascii.eqb x c) eqn:E; [done|].
  cbn. by rewrite E.
Qed.

Lemma toLowerByte_dot x : Ascii.eqb (GoStrings.toLowerByte x) "." = Ascii.eqb x ".".
Proof. destruct x as [[] [] [] [] [] [] [] []]; reflexivity. Qed.

Lemma ToLower_no_dot s :
  GoStrings.ContainsByte (GoStrings.ToLower s) "." = GoStrings.ContainsByte s ".".
Proof. induction s as [|x s IH]; [done|]. cbn. by rewrite toLowerByte_dot, IH. Qed.

(** X13: the name [ServeHTTPWithPort] looks up has no "." and is in lower
    case, so a key with a "." or with a capital letter is never the name
    the dispatcher asks for; and two hosts with the same first label up to
    case get the same answer and leave the same table. *)
Theorem dispatcher_asks_first_label host :
  let subdomain := GoStrings.ToLower (GoStrings.SplitFirst host ".") in
  GoStrings.ContainsByte subdomain "." = false /\
  GoStrings.ToLower subdomain = subdomain /\
  (forall key, GoStrings.ContainsByte key "." = true \/ GoStrings.ToLower key <> key ->
               subdomain <> key) /\
  (forall host' ρ ρh now p r,
     GoStrings.ToLower (GoStrings.SplitFirst host' ".") = subdomain ->
     ServeHTTPWithPort ρ ρh now host' p r = ServeHTTPWithPort ρ ρh now host p r).
Proof.
  intros subdomain. subst subdomain.
  assert (H1 : GoStrings.ContainsByte
                 (GoStrings.ToLower (GoStrings.SplitFirst host ".")) "." = false).
  { by rewrite ToLower_no_dot, SplitFirst_no_sep. }
  split; [done|]. split; [apply ToLower_idem|]. split.
  - intros key [Hk|Hk] <-; [congruence|]. apply Hk, ToLower_idem.
  - intros host' ρ ρh now p r Hh. unfold ServeHTTPWithPort. by rewrite Hh.
Qed.


(** * The ECS configuration

    ** The conversions to the SDK structures *)

Lemma CapacityProviderStrategy_toSDK_range_spec s : forall items,
  match CapacityProviderStrategy_toSDK_range s items with
  | Panics => None ∈ s
  | Returns out =>
      (None ∉ s) /\
      out = match s with
            | [] => items
            | _ => Some (elems items ++ ((fun item : option CapacityProviderStrategyItem =>
                             CapacityProviderStrategyItem_toSDK <$> item) <$> s))%list
            end
  end.
Proof.
  induction s as [|item s IH]; intros items; cbn.
  - split; [apply not_elem_of_nil|done].
  - destruct item as [i|]; [|left].
    specialize (IH (slice_append items (Some (CapacityProviderStrategyItem_toSDK i)))).
    destruct (CapacityProviderStrategy_toSDK_range s _) as [out|].
    + destruct IH as [Hn ->]. split.
      * apply not_elem_of_cons. by split.
      * destruct s; cbn; [done|]. by rewrite <- app_assoc.
    + by right.
Qed.

(** X14: [CapacityProviderStrategy.toSDK] panics exactly when an item of
    the strategy is [nil]; otherwise it returns the items converted one by
    one, in the same order and with the same three fields, and it returns
    the [nil] slice exactly when the strategy has no item, be it [nil] or
    empty. *)
Theorem CapacityProviderStrategy_toSDK_spec (s : CapacityProviderStrategy) :
  match CapacityProviderStrategy_toSDK s with
  | Panics => None ∈ elems s
  | Returns out =>
      (None ∉ elems s) /\
      elems out = ((fun item : option CapacityProviderStrategyItem =>
                      CapacityProviderStrategyItem_toSDK <$> item) <$> elems s) /\
      (out = None <-> len s = O) /\
      (forall i item, elems s !! i = Some (Some item) ->
         exists item', elems out !! i = Some (Some item') /\
           ecs.CapacityProvider item' = CapacityProvider item /\
           ecs.Weight item' = Weight item /\ ecs.Base item' = Base item)
  end.
Proof.
  unfold CapacityProviderStrategy_toSDK.
  assert (Hlen : len s = length (elems s)) by by destruct s.
  destruct (Nat.eqb_spec (len s) 0) as [H0|H0].
  - assert (He : elems s = []) by (apply nil_length_inv; congruence).
    rewrite He. split; [apply not_elem_of_nil|]. split; [done|].
    split; [done|]. intros i item Hi. by rewrite lookup_nil in Hi.
  - pose proof (CapacityProviderStrategy_toSDK_range_spec (elems s) None) as H.
    destruct (CapacityProviderStrategy_toSDK_range (elems s) None) as [out|]; [|done].
    destruct H as [Hn ->]. split; [done|].
    destruct (elems s) as [|x l] eqn:E; [by rewrite Hlen in H0|].
    cbn [elems default from_option id]. split; [done|]. split; [split; [done|lia]|].
    intros i item Hi. exists (CapacityProviderStrategyItem_toSDK item).
    split; [|done]. cbn [app]. by rewrite list_lookup_fmap, Hi.
Qed.

(** X15: [NetworkConfiguration.toSDK] on [nil] is [nil]; on a
    configuration without [awsvpc_configuration] it panics; otherwise the
    result carries the same public-IP setting, security groups and
    subnets. *)
Theorem NetworkConfiguration_toSDK_spec (c : option NetworkConfiguration) :
  match NetworkConfiguration_toSDK c with
  | Panics => exists nc, c = Some nc /\ nc_AwsVpcConfiguration nc = None
  | Returns None => c = None
  | Returns (Some out) =>
      exists nc vpc vpc',
        c = Some nc /\ nc_AwsVpcConfiguration nc = Some vpc /\
        ecs.AwsvpcConfiguration out = Some vpc' /\
        ecs.AssignPublicIp vpc' = AssignPublicIp vpc /\
        ecs.SecurityGroups vpc' = SecurityGroups vpc /\
        ecs.Subnets vpc' = Subnets vpc
  end.
Proof.
  destruct c as [[[vpc|]]|]; cbn; [|by eexists|done].
  by eexists _, vpc, _.
Qed.


(** ** [fillECSDefaults] *)

Section fillECSDefaults_facts.

Variable ECSCfg_String : ECSCfg -> string.
Variable fmt_v_meta : TaskMetadata -> string.
Variable fmt_v_networkConfiguration : option ecs.NetworkConfiguration -> string.
Variable out : Outside.

Lemma fillECSDefaults_defaults_state c :
  state (fillECSDefaults_defaults out c) = with_defaults out c.
Proof.
  destruct c as [rg cl cps lt nc dtd eec cps' nc'].
  unfold fillECSDefaults_defaults, with_defaults, when_, state. cbn.
  rewrite !run_bind. cbn.
  destruct (String.eqb rg ""); cbn;
    destruct lt as [lt|]; cbn; destruct cps as [cps|]; cbn;
    destruct eec as [eec|]; cbn; reflexivity.
Qed.

Lemma fillECSDefaults_network_state c :
  let c' := state (fillECSDefaults_network fmt_v_meta fmt_v_networkConfiguration out c) in
  let err := result (fillECSDefaults_network fmt_v_meta fmt_v_networkConfiguration out c) in
  set_networkConfiguration c' (networkConfiguration c) = c /\
  (networkConfiguration c <> None -> c' = c) /\
  (err <> None -> c' = c) /\
  (err = None -> networkConfiguration c = None ->
   exists cluster name svc svcs,
     DescribeServices out cluster [name] = inr (svc :: svcs) /\
     networkConfiguration c' = ecs.svc_NetworkConfiguration svc).
Proof.
  destruct c as [rg cl cps lt nc dtd eec cps' nc'].
  unfold fillECSDefaults_network, state, result.
  destruct (metadata_Get out) as [e|meta]; [by cbn|].
  rewrite run_log.
  destruct (let '(cluster, taskArn) := _ in _) as [[e c1] lg] eqn:E.
  cbn [fst snd].
  destruct meta as [cluster arn|cluster arn];
    (destruct (DescribeTasks out cluster [arn]) as [e1|[|task tasks]];
     [by inversion E|by inversion E|];
     destruct (DescribeServices out cluster _) as [e2|[|svc svcs]] eqn:Es;
     [by inversion E|by inversion E|];
     unfold when_, mbind, M_bind, get, put, log_Printf, ret, mret, M_ret in E;
     cbn in E;
     destruct nc' as [nc'|]; cbn in E; inversion E; subst; cbn;
     repeat split; try done;
     try (intros _ _; eexists _, _, _, _; split; [exact Es|done])).
Qed.

Lemma fillECSDefaults_run c :
  let c1 := with_defaults out c in
  let net := fillECSDefaults_network fmt_v_meta fmt_v_networkConfiguration out c1 in
  result (fillECSDefaults ECSCfg_String fmt_v_meta fmt_v_networkConfiguration out c)
    = result net /\
  state (fillECSDefaults ECSCfg_String fmt_v_meta fmt_v_networkConfiguration out c)
    = state net /\
  last (logged (fillECSDefaults ECSCfg_String fmt_v_meta fmt_v_networkConfiguration out c))
    = Some (if valid (state net)
            then Printf "[info] built ECS config: %s" [ArgS (ECSCfg_String (state net))]
            else Printf
                   "[error] ECS config is invalid, so you may not be able to launch ECS tasks"
                   []).
Proof.
  intros c1 net. subst net c1. rewrite <- fillECSDefaults_defaults_state.
  unfold fillECSDefaults, fillECSDefaults_deferred, state, result, logged.
  unfold mbind, M_bind, get, log_Printf, ret, mret, M_ret.
  destruct (fillECSDefaults_defaults out c) as [[u c1] l1]. cbn [fst snd].
  destruct (fillECSDefaults_network _ _ out c1) as [[err c2] l2]. cbn [fst snd].
  destruct (valid c2); cbn; (split; [done|]; split; [done|]).
  - by rewrite !app_assoc, last_snoc.
  - change (l1 ++ l2 ++ [?a; ?b])%list with (l1 ++ l2 ++ [a] ++ [b])%list.
    by rewrite !app_assoc, last_snoc.
Qed.

Lemma fillECSDefaults_state c :
  let c' := state (fillECSDefaults ECSCfg_String fmt_v_meta fmt_v_networkConfiguration out c) in
  set_networkConfiguration c' (networkConfiguration c) = with_defaults out c.
Proof.
  intros c'. subst c'.
  destruct (fillECSDefaults_run c) as (_ & -> & _).
  by destruct (fillECSDefaults_network_state (with_defaults out c)) as (E & _).
Qed.

(** X16: whatever the outside answers, [fillECSDefaults] changes at most
    four fields.  The cluster, the default task definition, both capacity
    provider strategies and the network configuration of the file are
    kept; a region that was set is kept and an empty one is replaced by
    the environment's [AWS_REGION]; the launch type becomes ["FARGATE"]
    exactly when neither a launch type nor a capacity provider strategy
    was given; [enable_execute_command] is always set afterwards, to
    [true] unless it was given; and a network configuration that was
    given is never replaced. *)
Theorem fillECSDefaults_keeps_given c :
  let c' := state (fillECSDefaults ECSCfg_String fmt_v_meta fmt_v_networkConfiguration out c) in
  Cluster c' = Cluster c /\
  DefaultTaskDefinition c' = DefaultTaskDefinition c /\
  ECS_CapacityProviderStrategy c' = ECS_CapacityProviderStrategy c /\
  capacityProviderStrategy c' = capacityProviderStrategy c /\
  ECS_NetworkConfiguration c' = ECS_NetworkConfiguration c /\
  Region c' = (if String.eqb (Region c) "" then Getenv out "AWS_REGION" else Region c) /\
  LaunchType c' =
    (if bool_decide (LaunchType c = None /\ ECS_CapacityProviderStrategy c = None)
     then Some "FARGATE" else LaunchType c) /\
  EnableExecuteCommand c' = Some (default true (EnableExecuteCommand c)) /\
  (forall nc, networkConfiguration c = Some nc -> networkConfiguration c' = Some nc).
Proof.
  intros c'. pose proof (fillECSDefaults_state c) as E. cbv zeta in E. fold c' in E.
  assert (Hn : forall nc, networkConfiguration c = Some nc ->
                          networkConfiguration c' = Some nc).
  { intros nc Hnc. subst c'.
    destruct (fillECSDefaults_run c) as (_ & -> & _).
    destruct (fillECSDefaults_network_state (with_defaults out c)) as (_ & -> & _).
    - by destruct c.
    - destruct c; cbn in *. by rewrite Hnc. }
  clearbody c'.
  destruct c' as [rg' cl' cps' lt' nc' dtd' eec' s' n'].
  destruct c as [rg cl cps lt nc dtd eec s n].
  cbn in *. unfold set_networkConfiguration, with_defaults in E. cbn in E.
  inversion E; subst. repeat split; try done.
  destruct lt, cps; by cbn.
Qed.

(** X17: when [fillECSDefaults] returns an error (the task metadata, the
    task or the service could not be obtained) the network configuration
    is the one it had before the call; when it returns no error and no
    network configuration was given, the network configuration is that of
    the first service [DescribeServices] answered. *)
Theorem fillECSDefaults_network_only_on_success c :
  let run := fillECSDefaults ECSCfg_String fmt_v_meta fmt_v_networkConfiguration out c in
  (forall e, result run = Some e ->
     networkConfiguration (state run) = networkConfiguration c) /\
  (result run = None -> networkConfiguration c = None ->
     exists cluster name svc svcs,
       DescribeServices out cluster [name] = inr (svc :: svcs) /\
       networkConfiguration (state run) = ecs.svc_NetworkConfiguration svc).
Proof.
  intros run. subst run.
  destruct (fillECSDefaults_run c) as (-> & -> & _).
  destruct (fillECSDefaults_network_state (with_defaults out c)) as (_ & _ & He & Hs).
  split.
  - intros e E. rewrite He; [by destruct c|]. by rewrite E.
  - intros E Hn. apply Hs; [done|]. by destruct c.
Qed.

(** X18: the deferred function of [fillECSDefaults] runs on every path,
    error or not: the last line logged is the verdict on the
    configuration as the call leaves it, ["built ECS config"] with the
    configuration when it is valid and the warning that tasks may not be
    launched when it is not. *)
Theorem fillECSDefaults_logs_verdict_last c :
  let run := fillECSDefaults ECSCfg_String fmt_v_meta fmt_v_networkConfiguration out c in
  last (logged run) =
    Some (if valid (state run)
          then Printf "[info] built ECS config: %s" [ArgS (ECSCfg_String (state run))]
          else Printf
                 "[error] ECS config is invalid, so you may not be able to launch ECS tasks"
                 []).
Proof.
  intros run. subst run.
  destruct (fillECSDefaults_run c) as (_ & E & ->). by rewrite E.
Qed.

(** X19: [fillECSDefaults] has no default for the cluster: a configuration
    without a cluster name is invalid after the call, whatever the
    environment and the ECS service answer. *)
Theorem fillECSDefaults_no_cluster_invalid c :
  Cluster c = "" ->
  valid (state (fillECSDefaults ECSCfg_String fmt_v_meta fmt_v_networkConfiguration out c))
    = false.
Proof.
  intros Hc.
  pose proof (fillECSDefaults_state c) as E. cbv zeta in E.
  apply (f_equal Cluster) in E.
  destruct (state _) as [rg' cl' cps' lt' nc' dtd' eec' s' n'].
  destruct c; cbn in *. subst.
  unfold valid. cbn. by destruct (String.eqb _ _).
Qed.

End fillECSDefaults_facts.

(** ** [NewConfig], on the ECS part *)

Lemma CapacityProviderStrategy_toSDK_Panics (s : CapacityProviderStrategy) :
  CapacityProviderStrategy_toSDK s = Panics <-> None ∈ elems s.
Proof.
  unfold CapacityProviderStrategy_toSDK.
  destruct (Nat.eqb_spec (len s) 0) as [H0|H0].
  - assert (He : elems s = []) by (destruct s as [l|]; [by destruct l|done]).
    rewrite He. split; [done|]. by intros ?%not_elem_of_nil.
  - pose proof (CapacityProviderStrategy_toSDK_range_spec (elems s) None) as H.
    destruct (CapacityProviderStrategy_toSDK_range (elems s) None) as [out|]; [|done].
    destruct H as [Hn _]. by split.
Qed.

Lemma CapacityProviderStrategy_toSDK_nil (s : CapacityProviderStrategy) out :
  CapacityProviderStrategy_toSDK s = Returns out ->
  (out = None <-> s = None \/ s = Some []).
Proof.
  unfold CapacityProviderStrategy_toSDK.
  destruct s as [[|x l]|]; cbn; try (intros [= <-]; split; by auto).
  pose proof (CapacityProviderStrategy_toSDK_range_spec (x :: l) None) as H.
  cbn in H. destruct x as [i|]; [|done].
  destruct (CapacityProviderStrategy_toSDK_range l _) as [o|]; [|done].
  destruct H as [_ ->]. intros [= <-]. split; [done|]. by intros [|].
Qed.

Lemma NetworkConfiguration_toSDK_Panics (c : option NetworkConfiguration) :
  NetworkConfiguration_toSDK c = Panics <->
  exists nc, c = Some nc /\ nc_AwsVpcConfiguration nc = None.
Proof.
  destruct c as [[[vpc|]]|]; cbn; split; try done.
  - by intros (nc & [= <-] & ?).
  - by eexists.
  - by intros (nc & ? & ?).
Qed.

Lemma NetworkConfiguration_toSDK_None (c : option NetworkConfiguration) out :
  NetworkConfiguration_toSDK c = Returns out -> (out = None <-> c = None).
Proof.
  destruct c as [[[vpc|]]|]; cbn; try done; intros [= <-]; by split.
Qed.

Lemma valid_true_iff c :
  valid c = true <->
  Region c <> "" /\ Cluster c <> "" /\
  ~ (LaunchType c = None /\ capacityProviderStrategy c = None) /\
  networkConfiguration c <> None.
Proof.
  unfold valid.
  destruct (String.eqb_spec (Region c) "") as [Hr|Hr]; [by split; [|intros (? & _)]|].
  destruct (String.eqb_spec (Cluster c) "") as [Hc|Hc]; [by split; [|intros (_ & ? & _)]|].
  destruct (bool_decide_reflect (LaunchType c = None)) as [Hl|Hl]; cbn.
  - destruct (bool_decide_reflect (capacityProviderStrategy c = None)) as [Hs|Hs].
    { split; [done|]. intros (_ & _ & H & _). by destruct H. }
    destruct (bool_decide_reflect (networkConfiguration c = None)) as [Hn|Hn].
    { split; [done|]. by intros (_ & _ & _ & ?). }
    split; [|done]. intros _. repeat split; auto. by intros [_ ?].
  - destruct (bool_decide_reflect (networkConfiguration c = None)) as [Hn|Hn].
    { split; [done|]. by intros (_ & _ & _ & ?). }
    split; [|done]. intros _. repeat split; auto. by intros [? _].
Qed.

Section NewConfig_facts.

Variable ECSCfg_String : ECSCfg -> string.
Variable fmt_v_meta : TaskMetadata -> string.
Variable fmt_v_networkConfiguration : option ecs.NetworkConfiguration -> string.
Variable out : Outside.

Lemma NewConfig_ECS_Returns loaded c' lg :
  NewConfig_ECS ECSCfg_String fmt_v_meta fmt_v_networkConfiguration out loaded
    = Returns (c', lg) ->
  exists cps nc,
    CapacityProviderStrategy_toSDK (ECS_CapacityProviderStrategy loaded) = Returns cps /\
    NetworkConfiguration_toSDK (ECS_NetworkConfiguration loaded) = Returns nc /\
    let c := mkECSCfg (Region loaded) (Cluster loaded)
               (ECS_CapacityProviderStrategy loaded) (LaunchType loaded)
               (ECS_NetworkConfiguration loaded) (DefaultTaskDefinition loaded)
               (EnableExecuteCommand loaded) cps nc in
    let run := fillECSDefaults ECSCfg_String fmt_v_meta fmt_v_networkConfiguration out c in
    c' = state run /\
    lg = (logged run ++
          match result run with
          | Some e => [Printf "[warn] failed to fill ECS defaults: %s" [ArgS (Error e)]]
          | None => []
          end)%list.
Proof.
  unfold NewConfig_ECS.
  destruct (CapacityProviderStrategy_toSDK _) as [cps|]; [|done].
  destruct (NetworkConfiguration_toSDK _) as [nc|]; [|done].
  cbv zeta. unfold state, logged, result.
  destruct (fillECSDefaults _ _ _ _ _) as [[err c1] l1] eqn:E. cbn.
  intros [= <- <-]. exists cps, nc. rewrite E. cbn. do 3 (split; [done|]).
  destruct err; [done|by rewrite app_nil_r].
Qed.

(** X20: [NewConfig] panics in the conversions of the ECS part exactly
    when the capacity provider strategy of the file has a [nil] item or
    its network configuration has no [awsvpc_configuration]; an error of
    [fillECSDefaults] never stops it. *)
Theorem NewConfig_ECS_panics_iff loaded :
  NewConfig_ECS ECSCfg_String fmt_v_meta fmt_v_networkConfiguration out loaded = Panics <->
  None ∈ elems (ECS_CapacityProviderStrategy loaded) \/
  exists nc, ECS_NetworkConfiguration loaded = Some nc /\ nc_AwsVpcConfiguration nc = None.
Proof.
  rewrite <- CapacityProviderStrategy_toSDK_Panics, <- NetworkConfiguration_toSDK_Panics.
  unfold NewConfig_ECS.
  destruct (CapacityProviderStrategy_toSDK _) as [cps|]; [|by split; auto].
  destruct (NetworkConfiguration_toSDK _) as [nc|]; [|by split; auto].
  destruct (fillECSDefaults _ _ _ _ _) as [[err c1] l1].
  split; [done|]. by intros [|].
Qed.

(** X21: the configuration [NewConfig] returns is valid exactly when a
    region is given in the file or in [AWS_REGION], a cluster is given,
    a network configuration is there at the end (from the file or from
    the service of the running task), and the file does not combine a
    missing launch type with an empty capacity provider strategy: an
    empty list is not [nil], so it gets no ["FARGATE"] default, and it
    converts to the [nil] slice. *)
Theorem NewConfig_ECS_valid_iff loaded c' lg :
  NewConfig_ECS ECSCfg_String fmt_v_meta fmt_v_networkConfiguration out loaded
    = Returns (c', lg) ->
  (valid c' = true <->
     (Region loaded <> "" \/ Getenv out "AWS_REGION" <> "") /\
     Cluster loaded <> "" /\
     ~ (LaunchType loaded = None /\ ECS_CapacityProviderStrategy loaded = Some []) /\
     networkConfiguration c' <> None).
Proof.
  intros (cps & nc & Hcps & Hnc & Hc & _)%NewConfig_ECS_Returns. cbv zeta in Hc.
  pose proof (fillECSDefaults_state ECSCfg_String fmt_v_meta fmt_v_networkConfiguration
                out (mkECSCfg (Region loaded) (Cluster loaded)
               (ECS_CapacityProviderStrategy loaded) (LaunchType loaded)
               (ECS_NetworkConfiguration loaded) (DefaultTaskDefinition loaded)
               (EnableExecuteCommand loaded) cps nc)) as E.
  cbv zeta in E. rewrite <- Hc in E. clear Hc.
  apply CapacityProviderStrategy_toSDK_nil in Hcps.
  rewrite valid_true_iff.
  destruct c' as [rg' cl' s' lt' n' dtd' eec' cps' nc'].
  destruct loaded as [rg cl s lt n dtd eec cps0 nc0].
  unfold set_networkConfiguration, with_defaults in E. cbn in *.
  inversion E; subst; clear E.
  assert (Hrg : (if String.eqb rg "" then Getenv out "AWS_REGION" else rg) <> "" <->
                rg <> "" \/ Getenv out "AWS_REGION" <> "").
  { destruct (String.eqb_spec rg "") as [->|Hrg]; split; auto. by intros [|]. }
  rewrite Hrg. clear Hrg.
  destruct lt as [lt|], s as [[|y l]|]; cbn in *;
    intuition (try discriminate; try congruence).
Qed.

End NewConfig_facts.

(** * main.go: flags and the environment *)

Lemma upper_byte_shape c :
  toUpperByte (if Ascii.eqb (toUpperByte c) "-" then "_"%char else toUpperByte c)
  = (if Ascii.eqb (toUpperByte c) "-" then "_"%char else toUpperByte c).
Proof. destruct c as [[] [] [] [] [] [] [] []]; by vm_compute. Qed.

Lemma ReplaceByte_no_old s c :
  GoStrings.ContainsByte (ReplaceByte s "-" "_") c = true -> c <> "-"%char.
Proof.
  induction s as [|b s IH]; cbn; [done|].
  intros [H|H]%orb_true_iff; [|by apply IH].
  apply Ascii.eqb_eq in H as <-. by destruct (Ascii.eqb_spec b "-").
Qed.

Lemma ReplaceByte_length s old new :
  String.length (ReplaceByte s old new) = String.length s.
Proof. induction s as [|b s IH]; cbn; [done|]. by rewrite IH. Qed.

Lemma upperBytes_length s : String.length (upperBytes s) = String.length s.
Proof. induction s as [|b s IH]; cbn; [done|]. by rewrite IH. Qed.

Lemma env_name_upper s c :
  GoStrings.ContainsByte (ReplaceByte (upperBytes s) "-" "_") c = true ->
  toUpperByte c = c.
Proof.
  induction s as [|b s IH]; cbn; [done|].
  intros [H|H]%orb_true_iff; [|by apply IH].
  apply Ascii.eqb_eq in H as <-. apply upper_byte_shape.
Qed.

(** X22: [overrideWithEnv] asks the environment for one variable,
    [MIRAGE_] followed by a name without ["-"].  For a flag whose name is
    ASCII, as the flags of [main] are, that name has as many bytes as
    the flag's name and no lower-case letter.  [overrideWithEnv] keeps
    the flag's name; when the variable is unset or empty the flag is left
    as it is, and otherwise the value of the variable is given to the
    flag's [Set]. *)
Theorem overrideWithEnv_one_variable {Value} (Value_Set : Value -> string -> Value)
    (Map_ToUpper : string -> string) (f : Flag Value) :
  exists N,
    (forall c, GoStrings.ContainsByte N c = true -> c <> "-"%char) /\
    (isASCII (flag_Name Value f) = true ->
     String.length N = String.length (flag_Name Value f) /\
     forall c, GoStrings.ContainsByte N c = true -> toUpperByte c = c) /\
    (forall getenv,
       flag_Name Value (overrideWithEnv Value Value_Set Map_ToUpper getenv f)
         = flag_Name Value f) /\
    (forall getenv, getenv ("MIRAGE_" ++ N) = "" ->
       overrideWithEnv Value Value_Set Map_ToUpper getenv f = f) /\
    (forall getenv, getenv ("MIRAGE_" ++ N) <> "" ->
       flag_Value Value (overrideWithEnv Value Value_Set Map_ToUpper getenv f) =
       Value_Set (flag_Value Value f) (getenv ("MIRAGE_" ++ N))).
Proof.
  exists (ReplaceByte (ToUpper Map_ToUpper (flag_Name Value f)) "-" "_").
  split; [apply ReplaceByte_no_old|]. split.
  { unfold ToUpper. intros ->. split.
    - by rewrite ReplaceByte_length, upperBytes_length.
    - apply env_name_upper. }
  unfold overrideWithEnv. split; [|split].
  - intros getenv. by destruct (negb _).
  - intros getenv ->. done.
  - intros getenv H. apply String.eqb_neq in H. by rewrite H.
Qed.

(** * The theorems at work on the example tables and configurations *)

Lemma Modify_add_remove_round_trip_witness :
  state (Modify 1 (mkProxyControl proxyRemove "foo" "" 0)
           (state (Modify 0 (mkProxyControl proxyAdd "foo" "10.0.0.1" 5000)
                     (NewReverseProxy example_config))))
    = NewReverseProxy example_config /\
  (forall kind, kind <> proxyAdd -> kind <> proxyRemove ->
     Modify 0 (mkProxyControl kind "foo" "10.0.0.1" 5000) table_foo =
     (tt, table_foo, [Printf "[error] unknown proxy action: %s" [ArgS kind]])).
Proof.
  split.
  - apply (Modify_add_remove_round_trip 0 1 "foo" "10.0.0.1" 5000 "" 0
             (NewReverseProxy example_config)).
    reflexivity.
  - apply (Modify_add_remove_round_trip 0 1 "foo" "10.0.0.1" 5000 "" 0 table_foo).
Defined.

Lemma unmatched_name_not_found_witness :
  (forall ρ, result (Exists ρ "bar" table_foo) = false) /\
  (forall ρ ρh now p,
     findHandler ρ ρh now "bar" p table_foo =
       (None, table_foo, [Printf "[debug] findHandler for %s:%d" [ArgS "bar"; ArgD p]])) /\
  (forall ρ ρh now p host,
     GoStrings.ToLower (GoStrings.SplitFirst host ".") = "bar" ->
     ServeHTTPWithPort ρ ρh now host p table_foo =
       (NotFound, table_foo,
        [Printf "[debug] findHandler for %s:%d" [ArgS "bar"; ArgD p];
         Printf "[warn] proxy handler not found for subdomain %s" [ArgS "bar"]])).
Proof.
  apply (unmatched_name_not_found "bar" table_foo).
  intros name Hs. destruct (decide (name = "foo")) as [->|Hne].
  - split; [discriminate|]. vm_compute. reflexivity.
  - exfalso. unfold table_foo in Hs.
    rewrite AddSubdomain_domainMap, lookup_insert_ne in Hs by done.
    by apply is_Some_None in Hs.
Defined.

Lemma findHandler_returns_live_handler_witness :
  exists name ip h,
    (name = "foo" \/
     (domainMap table_foo !! "foo" = None /\ (GoPath.Match name "foo").1 = true)) /\
    bucket table_foo name 80 !! ip = Some h /\ (alive 1 h).1 = true /\
    NewSingleHostReverseProxy {| Scheme := "http"; Host := "10.0.0.1"; Port := 5000 |}
      = handler h.
Proof.
  apply (findHandler_returns_live_handler in_order in_order 1 "foo" 80 table_foo).
  vm_compute. reflexivity.
Defined.

Lemma AddSubdomain_new_handler_witness :
  bucket (state (AddSubdomain 0 "foo" "10.0.0.1" 5000 (NewReverseProxy example_config)))
    "foo" 80
    = <["10.0.0.1" := newProxyHandler 0 (NewSingleHostReverseProxy
                        {| Scheme := "http"; Host := "10.0.0.1"; Port := 5000 |})]>
        (bucket (NewReverseProxy example_config) "foo" 80) /\
  (forall now',
     (alive now' (newProxyHandler 0 (NewSingleHostReverseProxy
                    {| Scheme := "http"; Host := "10.0.0.1"; Port := 5000 |}))).1 = true
     <-> now' < 0 + proxyHandlerLifetime) /\
  size (bucket (state (AddSubdomain 0 "foo" "10.0.0.1" 5000
                         (NewReverseProxy example_config))) "foo" 80) =
    match bucket (NewReverseProxy example_config) "foo" 80 !! "10.0.0.1" with
    | Some _ => size (bucket (NewReverseProxy example_config) "foo" 80)
    | None => S (size (bucket (NewReverseProxy example_config) "foo" 80))
    end.
Proof.
  apply (AddSubdomain_new_handler 0 "foo" "10.0.0.1" 5000 80
           (NewReverseProxy example_config)).
  - left.
  - intros h Hh. discriminate Hh.
Defined.

Lemma alive_reports_dead_once_witness :
  (alive 30000000000
     (newProxyHandler 0 (NewSingleHostReverseProxy
        {| Scheme := "http"; Host := "10.0.0.1"; Port := 5000 |}))).1 = false /\
  (forall now',
     (alive now'
        (alive 30000000000
           (newProxyHandler 0 (NewSingleHostReverseProxy
              {| Scheme := "http"; Host := "10.0.0.1"; Port := 5000 |}))).2).1 = true) /\
  (forall t h', (alive t h').1 = true ->
     forall now', (alive now' (extend t (alive t h').2)).1 = true <->
                  now' < t + proxyHandlerLifetime).
Proof.
  apply (alive_reports_dead_once 0
           (NewSingleHostReverseProxy
              {| Scheme := "http"; Host := "10.0.0.1"; Port := 5000 |}) 30000000000).
  unfold proxyHandlerLifetime, GoTime.Second. lia.
Defined.

Lemma reachable_handlers_have_deadline_witness :
  cfg table_foo = example_config /\
  forall d p ip h, bucket table_foo d p !! ip = Some h ->
    exists deadline,
      deadline <= 0 + proxyHandlerLifetime /\
      forall now, 0 <= now -> ((alive now h).1 = true <-> now < deadline).
Proof.
  apply (reachable_handlers_have_deadline example_config 0 table_foo).
  apply reachable_table_foo.
Defined.

Lemma fillECSDefaults_no_cluster_invalid_witness :
  valid (state (fillECSDefaults (fun _ => "") (fun _ => "") (fun _ => "") example_outside
                  (set_Region (mkECSCfg "" "" None None None "" None None None)
                     "us-east-1")))
    = false.
Proof.
  apply (fillECSDefaults_no_cluster_invalid (fun _ => "") (fun _ => "") (fun _ => "")
           example_outside).
  reflexivity.
Defined.

Lemma NewConfig_ECS_valid_iff_witness :
  exists c' lg,
    NewConfig_ECS (fun _ => "") (fun _ => "") (fun _ => "") example_outside example_loaded
      = Returns (c', lg) /\
    Region c' = "ap-northeast-1" /\ LaunchType c' = Some "FARGATE" /\
    (valid c' = true <->
       (Region example_loaded <> "" \/ Getenv example_outside "AWS_REGION" <> "") /\
       Cluster example_loaded <> "" /\
       ~ (LaunchType example_loaded = None /\
          ECS_CapacityProviderStrategy example_loaded = Some []) /\
       networkConfiguration c' <> None).
Proof.
  eexists _, _. split; [vm_compute; reflexivity|].
  split; [reflexivity|]. split; [reflexivity|].
  eapply (NewConfig_ECS_valid_iff (fun _ => "") (fun _ => "") (fun _ => "")
            example_outside example_loaded).
  vm_compute. reflexivity.
Defined.

Lemma overrideWithEnv_one_variable_witness :
  exists N,
    (forall c, GoStrings.ContainsByte N c = true -> c <> "-"%char) /\
    (isASCII "default-port" = true ->
     String.length N = String.length "default-port" /\
     forall c, GoStrings.ContainsByte N c = true -> toUpperByte c = c) /\
    (forall getenv,
       flag_Name string
         (overrideWithEnv string (fun _ s => s) (fun s => s) getenv
            (mkFlag string "default-port" "80")) = "default-port") /\
    (forall getenv, getenv ("MIRAGE_" ++ N) = "" ->
       overrideWithEnv string (fun _ s => s) (fun s => s) getenv
         (mkFlag string "default-port" "80") = mkFlag string "default-port" "80") /\
    (forall getenv, getenv ("MIRAGE_" ++ N) <> "" ->
       flag_Value string
         (overrideWithEnv string (fun _ s => s) (fun s => s) getenv
            (mkFlag string "default-port" "80")) = getenv ("MIRAGE_" ++ N)).
Proof.
  apply (overrideWithEnv_one_variable (fun _ s => s) (fun s => s)
           (mkFlag string "default-port" "80")).
Defined.
